(** * SteamNoodles feedback response agent

    A shallow embedding of [agents/feedback_response_agent.py] and the
    properties of its aspect detector, severity heuristic, reply template
    engine and paraphrase post-processor. *)

From Stdlib Require Import List ZArith NArith Bool Lia String Ascii.
From Stdlib Require Import Sorting.Sorted Sorting.Permutation.
From Stdlib Require Import Floats.SpecFloat.
Import ListNotations.

(** ** Python strings *)

(** A Python [str] is a sequence of Unicode code points. *)
Definition char := N.
Definition str := list char.

(** String literals of the source.  Every literal of the module is ASCII
    except the apostrophe U+2019 of the intensified apology. *)
Definition lit (s : string) : str := List.map N_of_ascii (list_ascii_of_string s).

Definition RIGHT_SINGLE_QUOTE : char := 8217%N.

Fixpoint str_eqb (a b : str) : bool :=
  match a, b with
  | [], [] => true
  | x :: a', y :: b' => N.eqb x y && str_eqb a' b'
  | _, _ => false
  end.

(** [t.startswith(kw)] *)
Fixpoint startswith (kw t : str) : bool :=
  match kw, t with
  | [], _ => true
  | _ :: _, [] => false
  | a :: kw', b :: t' => N.eqb a b && startswith kw' t'
  end.

(** [kw in t] on strings: [kw] occurs at some offset of [t]. *)
Fixpoint str_in (kw t : str) : bool :=
  startswith kw t ||
  match t with
  | [] => false
  | _ :: t' => str_in kw t'
  end.

(** [sep.join(parts)] *)
Fixpoint join (sep : str) (parts : list str) : str :=
  match parts with
  | [] => []
  | [p] => p
  | p :: rest => p ++ sep ++ join sep rest
  end.

(** [str.lower] restricted to ASCII: only A-Z move. *)
Definition ascii_lower_char (c : char) : char :=
  if (N.leb 65 c && N.leb c 90)%bool then (c + 32)%N else c.

Definition ascii_lower (s : str) : str := List.map ascii_lower_char s.

Definition is_ascii (s : str) : Prop := Forall (fun c => (c < 128)%N) s.

(** [str.isspace] on one code point, the whitespace table of CPython. *)
Definition isspace (c : char) : bool :=
  (N.leb 9 c && N.leb c 13) || (N.leb 28 c && N.leb c 32)
  || N.eqb c 133 || N.eqb c 160 || N.eqb c 5760
  || (N.leb 8192 c && N.leb c 8202)
  || N.eqb c 8232 || N.eqb c 8233 || N.eqb c 8239 || N.eqb c 8287
  || N.eqb c 12288.

Fixpoint lstrip (s : str) : str :=
  match s with
  | [] => []
  | c :: s' => if isspace c then lstrip s' else s
  end.

Definition rstrip (s : str) : str := rev (lstrip (rev s)).

(** [s.strip()] *)
Definition strip (s : str) : str := lstrip (rstrip s).

(** Leftmost occurrence of [sep] in [s]: the text before it and the text
    after it. *)
Fixpoint str_partition (sep s : str) : option (str * str) :=
  if startswith sep s then Some ([], skipn (List.length sep) s)
  else match s with
       | [] => None
       | c :: s' =>
           match str_partition sep s' with
           | Some (before, after) => Some (c :: before, after)
           | None => None
           end
       end.

(** [s.split(sep, 1)] for a non-empty [sep]. *)
Definition split1 (sep s : str) : list str :=
  match str_partition sep s with
  | Some (before, after) => [before; after]
  | None => [s]
  end.

(** [l[-1]]; [None] stands for [IndexError]. *)
Definition index_last {A : Type} (l : list A) : option A :=
  match rev l with
  | [] => None
  | x :: _ => Some x
  end.

(** ** Python lists *)

(** [l[:k]] for an [int] [k]; a negative [k] counts from the end. *)
Definition slice_to {A : Type} (l : list A) (k : Z) : list A :=
  if (k <? 0)%Z
  then firstn (Z.to_nat (Z.max 0 (Z.of_nat (List.length l) + k))) l
  else firstn (Z.to_nat k) l.

(** [l.sort(key=key, reverse=True)]: the sort of Python is stable, and stays
    so under [reverse=True]: of two elements with equal keys the one that
    came first stays first.  The stable descending order of a list is
    unique, here it is produced by insertion. *)
Section SortReverse.
Context {A : Type}.
Variable key : A -> Z.

Fixpoint insert_desc (x : A) (l : list A) : list A :=
  match l with
  | [] => [x]
  | y :: l' =>
      if (key x <? key y)%Z then y :: insert_desc x l' else x :: y :: l'
  end.

Fixpoint sort_reverse (l : list A) : list A :=
  match l with
  | [] => []
  | x :: l' => insert_desc x (sort_reverse l')
  end.
End SortReverse.

(** [sum(xs)] over integers. *)
Definition sum (xs : list Z) : Z := fold_left Z.add xs 0%Z.

(** ** Models *)

Definition _GEN_MODEL_ID : str := lit "distilgpt2".

(** What the process asks of the [transformers] library, in order. *)
Inductive Event : Type :=
| EvPipeline (task model : str)
| EvGenerate (prompt : str) (max_new_tokens : Z).

(** The [transformers] library: building a pipeline and running a
    text-generation pipeline on a prompt.  Both see what was asked before
    (sampling makes the generator answer differently from call to call) and
    both may raise, which is [None].  [generate] stands for
    [gen(prompt, ...)[0]["generated_text"]]. *)
Record Transformers : Type := {
  Pipeline : Type;
  pipeline : list Event -> str -> str -> option Pipeline;
  generate : list Event -> Pipeline -> str -> Z -> option str
}.

(** The module-level state: the global [_gen_pipe] and the calls made. *)
Record World (T : Transformers) : Type := {
  _gen_pipe : option (Pipeline T);
  trace : list Event
}.
Arguments _gen_pipe {T} w.
Arguments trace {T} w.

Inductive Result (A : Type) : Type :=
| Ok (a : A)
| Raised.
Arguments Ok {A} a.
Arguments Raised {A}.

(** Computations over the module state that may raise. *)
Definition M (T : Transformers) (A : Type) : Type :=
  World T -> Result A * World T.

Definition ret {T : Transformers} {A : Type} (a : A) : M T A :=
  fun w => (Ok a, w).

Definition bind {T : Transformers} {A B : Type} (m : M T A) (f : A -> M T B)
  : M T B :=
  fun w => match m w with
           | (Ok a, w') => f a w'
           | (Raised, w') => (Raised, w')
           end.

Definition raise {T : Transformers} {A : Type} : M T A :=
  fun w => (Raised, w).

Definition read_gen_pipe {T : Transformers} : M T (option (Pipeline T)) :=
  fun w => (Ok (_gen_pipe w), w).

Definition write_gen_pipe {T : Transformers} (p : Pipeline T) : M T unit :=
  fun w => (Ok tt, {| _gen_pipe := Some p; trace := trace w |}).

Definition call_pipeline {T : Transformers} (task model : str)
  : M T (Pipeline T) :=
  fun w =>
    let w' := {| _gen_pipe := _gen_pipe w;
                 trace := trace w ++ [EvPipeline task model] |} in
    match pipeline T (trace w) task model with
    | Some p => (Ok p, w')
    | None => (Raised, w')
    end.

Definition call_generate {T : Transformers} (gen : Pipeline T) (prompt : str)
  (max_new_tokens : Z) : M T str :=
  fun w =>
    let w' := {| _gen_pipe := _gen_pipe w;
                 trace := trace w ++ [EvGenerate prompt max_new_tokens] |} in
    match generate T (trace w) gen prompt max_new_tokens with
    | Some out => (Ok out, w')
    | None => (Raised, w')
    end.

Declare Scope py_scope.
Delimit Scope py_scope with py.
Notation "x <- m ;; k" := (bind m (fun x => k))
  (at level 61, m at next level, right associativity) : py_scope.

Definition get_gen_pipe {T : Transformers} : M T (Pipeline T) :=
  (cached <- read_gen_pipe ;;
   match cached with
   | None =>
       p <- call_pipeline (lit "text-generation") _GEN_MODEL_ID ;;
       _ <- write_gen_pipe p ;;
       ret p
   | Some p => ret p
   end)%py.

(** ** Aspect and sentiment logic *)

(** The dict keeps insertion order; [items()] enumerates it in that order. *)
Definition ASPECT_KEYWORDS : list (str * list str) :=
  [ (lit "food",
     List.map lit ["food"; "taste"; "noodle"; "soup"; "broth"; "dish"; "meal";
                   "menu"; "flavor"; "fresh"; "cold"; "hot"]%string);
    (lit "service",
     List.map lit ["service"; "staff"; "waiter"; "server"; "slow"; "rude";
                   "friendly"; "attentive"]%string);
    (lit "ambiance",
     List.map lit ["ambience"; "atmosphere"; "music"; "noise"; "crowd"; "clean";
                   "dirty"; "decor"; "lighting"; "seat"]%string);
    (lit "price",
     List.map lit ["price"; "cost"; "expensive"; "cheap"; "value"; "overpriced";
                   "bill"]%string);
    (lit "delivery",
     List.map lit ["delivery"; "takeaway"; "pickup"; "packaging"]%string) ].

Definition NEG_STRONG_TERMS : list str :=
  List.map lit ["terrible"; "awful"; "horrible"; "worst"; "disgusting"; "refund";
                "complaint"; "unacceptable"]%string.

Definition NO_SPECIFIC_ASPECT : str := lit "no specific aspect".

(** [sum(1 for kw in kws if kw in text_l)] *)
Definition keyword_score (text_l : str) (kws : list str) : Z :=
  sum (List.map (fun _ => 1%Z) (filter (fun kw => str_in kw text_l) kws)).

(** The loop of [detect_aspects] over [items], appending to [hits]. *)
Definition collect_hits (text_l : str) (items : list (str * list str))
  : list (str * Z) :=
  fold_left
    (fun hits item =>
       let '(aspect, kws) := item in
       let score := keyword_score text_l kws in
       if (score >? 0)%Z then hits ++ [(aspect, score)] else hits)
    items [].

Record SentimentResult : Type := {
  label : str;
  confidence : spec_float
}.

(** Truth value of an [Optional[str]]: [None] and the empty string are
    false. *)
Definition truthy (o : option str) : bool :=
  match o with
  | None => false
  | Some [] => false
  | Some (_ :: _) => true
  end.

(** [f"{o}"] for an [Optional[str]]. *)
Definition format_opt (o : option str) : str :=
  match o with
  | None => lit "None"
  | Some s => s
  end.

Definition NL : str := [10%N].

Definition POSITIVE_CLOSING : str := lit "Warm thanks, SteamNoodles Team".
Definition NEUTRAL_CLOSING : str := lit "Kind regards, SteamNoodles Team".
Definition NEGATIVE_CLOSING : str := lit "Sincerely, SteamNoodles Support".

Definition PLAIN_APOLOGY : str := lit "We're sorry".
Definition STRONG_APOLOGY : str :=
  lit "We" ++ [RIGHT_SINGLE_QUOTE] ++ lit "re truly sorry".

Definition PARAPHRASE_MARKER : str := lit "Paraphrase:".

(** [out.split("Paraphrase:", 1)[-1].strip()]; [None] stands for an
    exception. *)
Definition extract_paraphrase (out : str) : option str :=
  match index_last (split1 PARAPHRASE_MARKER out) with
  | Some tail => Some (strip tail)
  | None => None
  end.

Definition paraphrase_prompt (reply : str) : str :=
  lit "Paraphrase politely and concisely (2 sentences max). Original: "
  ++ reply ++ NL ++ lit "Paraphrase:".

Section Agent.
(** [str.lower] is the Unicode lowering of the Python runtime. *)
Variable lower : str -> str.

Definition detect_aspects (text : str) (max_aspects : Z) : list str :=
  let text_l := lower text in
  let hits := collect_hits text_l ASPECT_KEYWORDS in
  let hits := sort_reverse (fun x : str * Z => snd x) hits in
  let aspects := List.map fst (slice_to hits max_aspects) in
  match aspects with
  | [] => [NO_SPECIFIC_ASPECT]
  | _ :: _ => aspects
  end.

Definition is_strong_negative (text : str) : bool :=
  let t := lower text in
  existsb (fun term => str_in term t) NEG_STRONG_TERMS.

Definition build_template_reply (review : str) (sentiment : SentimentResult)
  (aspects : list str) (customer_name : option str) : str :=
  let name_prefix :=
    if truthy customer_name
    then lit "Hi " ++ format_opt customer_name ++ lit ","
    else lit "Hi there," in
  let aspect_str := join (lit ", ") aspects in
  let '(body, closing) :=
    if str_eqb (label sentiment) (lit "positive") then
      (lit " thank you for the wonderful feedback! We're thrilled that you enjoyed the "
         ++ aspect_str ++ lit ". Your kind words mean a lot to our team.",
       POSITIVE_CLOSING)
    else if str_eqb (label sentiment) (lit "neutral") then
      (lit " thanks for sharing your thoughts. We will keep your notes about the "
         ++ aspect_str ++ lit " in mind as we improve.",
       NEUTRAL_CLOSING)
    else
      let apology :=
        if negb (is_strong_negative review) then PLAIN_APOLOGY
        else STRONG_APOLOGY in
      (lit " " ++ apology ++ lit " that your experience with the "
         ++ aspect_str
         ++ lit " didn't meet expectations. Your feedback helps us improve.",
       NEGATIVE_CLOSING) in
  name_prefix ++ body ++ NL ++ NL ++ closing.
End Agent.

(** The default of the parameter [max_aspects]. *)
Definition DEFAULT_MAX_ASPECTS : Z := 2.

Definition maybe_paraphrase {T : Transformers} (reply : str)
  (enable_generation : bool) : M T str :=
  if negb enable_generation then ret reply
  else
    (gen <- get_gen_pipe ;;
     out <- call_generate gen (paraphrase_prompt reply) 70 ;;
     match extract_paraphrase out with
     | Some paraphrased => ret paraphrased
     | None => raise
     end)%py.

(** A stand-in for the [transformers] library whose generator always answers
    [out]. *)
Definition stub_transformers (out : str) : Transformers :=
  {| Pipeline := unit;
     pipeline := fun _ _ _ => Some tt;
     generate := fun _ _ _ _ => Some out |}.

Definition fresh_world (T : Transformers) : World T :=
  {| _gen_pipe := None; trace := [] |}.

(** ** Notions used to state the properties *)

(** [kw] occurs in [t]. *)
Definition Substring (kw t : str) : Prop :=
  exists pre post, t = pre ++ kw ++ post.

(** The salutation as the specification words it. *)
Definition spec_salutation (customer_name : option str) : str :=
  match customer_name with
  | Some (c :: name) => lit "Hi " ++ (c :: name) ++ lit ","
  | Some [] | None => lit "Hi there,"
  end.

Definition ASPECT_NAMES : list str := List.map fst ASPECT_KEYWORDS.

(** Hit count of the category named [a]; zero for any other string. *)
Definition aspect_score (text_l : str) (a : str) : Z :=
  match find (fun item => str_eqb (fst item) a) ASPECT_KEYWORDS with
  | Some (_, kws) => keyword_score text_l kws
  | None => 0%Z
  end.

(** Position of the category named [a] in the enumeration. *)
Fixpoint index_of (a : str) (names : list str) : nat :=
  match names with
  | [] => 0
  | b :: rest => if str_eqb b a then 0 else S (index_of a rest)
  end.

Definition aspect_rank (a : str) : nat := index_of a ASPECT_NAMES.

(** [a] is ranked before [b]: more hits, or as many and enumerated first. *)
Definition ranks_before (text_l : str) (a b : str) : Prop :=
  (aspect_score text_l b < aspect_score text_l a)%Z
  \/ (aspect_score text_l a = aspect_score text_l b
      /\ aspect_rank a < aspect_rank b).

(** The order a stable descending sort by [key] establishes, given the order
    [R] in which the elements came: a larger key first, and among equal keys
    the earlier element first. *)
Definition stable_desc {A : Type} (key : A -> Z) (R : A -> A -> Prop)
  (x y : A) : Prop :=
  (key y < key x)%Z \/ (key x = key y /\ R x y).

(** The scores of all the items, before the zero scores are dropped. *)
Definition scored (text_l : str) (items : list (str * list str))
  : list (str * Z) :=
  List.map (fun item => (fst item, keyword_score text_l (snd item))) items.

(** The [hits] of [detect_aspects] after the sort. *)
Definition ranked_hits (text_l : str) : list (str * Z) :=
  sort_reverse (fun x : str * Z => snd x) (collect_hits text_l ASPECT_KEYWORDS).

(** The three bodies of the template. *)
Definition positive_body (aspects : list str) : str :=
  lit " thank you for the wonderful feedback! We're thrilled that you enjoyed the "
  ++ join (lit ", ") aspects ++ lit ". Your kind words mean a lot to our team.".

Definition neutral_body (aspects : list str) : str :=
  lit " thanks for sharing your thoughts. We will keep your notes about the "
  ++ join (lit ", ") aspects ++ lit " in mind as we improve.".

Definition apology_body (apology : str) (aspects : list str) : str :=
  lit " " ++ apology ++ lit " that your experience with the "
  ++ join (lit ", ") aspects
  ++ lit " didn't meet expectations. Your feedback helps us improve.".

(** The text the extraction keeps before stripping: what follows the
    leftmost marker, or all of [out] without a marker. *)
Definition after_marker (out : str) : str :=
  match str_partition PARAPHRASE_MARKER out with
  | Some (_, after) => after
  | None => out
  end.

(** ** The classifier, the console and the whole process *)

Definition _SENTIMENT_MODEL_ID : str :=
  lit "cardiffnlp/twitter-roberta-base-sentiment-latest".

(** What the process asks of the text-classification side of the library. *)
Inductive SentimentEvent : Type :=
| EvSentimentPipeline (task model tokenizer : str)
    (return_all_scores truncation : bool)
| EvClassify (review : str).

(** The text-classification side of [transformers]: building the pipeline
    and running it on a review.  A run answers a list, per input, of the
    list of its (label, score) entries; [None] is an exception. *)
Record Classifier : Type := {
  SentimentPipeline : Type;
  sentiment_pipeline :
    list SentimentEvent -> str -> str -> str -> bool -> bool ->
    option SentimentPipeline;
  classify :
    list SentimentEvent -> SentimentPipeline -> str ->
    option (list (list (str * spec_float)))
}.

(** The whole process: the generator side, the global [_sentiment_pipe] with
    the calls made to the classifier, the lines still to be read from the
    standard input, what was written to the standard output, and the
    standard output stream itself: [stdout_accepts written text] tells
    whether the stream, having taken [written], takes [text].  It does not
    when [text] cannot be encoded in the encoding of the stream or when the
    stream fails; the write then raises. *)
Record Process (T : Transformers) (C : Classifier) : Type := {
  gen_world : World T;
  _sentiment_pipe : option (SentimentPipeline C);
  sentiment_trace : list SentimentEvent;
  stdin : list str;
  stdout : str;
  stdout_accepts : str -> str -> bool
}.
Arguments gen_world {T C} p.
Arguments _sentiment_pipe {T C} p.
Arguments sentiment_trace {T C} p.
Arguments stdin {T C} p.
Arguments stdout {T C} p.
Arguments stdout_accepts {T C} p.

Definition P (T : Transformers) (C : Classifier) (A : Type) : Type :=
  Process T C -> Result A * Process T C.

Definition pret {T : Transformers} {C : Classifier} {A : Type} (a : A)
  : P T C A :=
  fun p => (Ok a, p).

Definition pbind {T : Transformers} {C : Classifier} {A B : Type}
  (m : P T C A) (f : A -> P T C B) : P T C B :=
  fun p => match m p with
           | (Ok a, p') => f a p'
           | (Raised, p') => (Raised, p')
           end.

(** A value that may be missing, as a computation that may raise. *)
Definition of_option {T : Transformers} {C : Classifier} {A : Type}
  (o : option A) : P T C A :=
  fun p => match o with
           | Some a => (Ok a, p)
           | None => (Raised, p)
           end.

(** A computation on the generator side, run inside the process. *)
Definition lift_gen {T : Transformers} {C : Classifier} {A : Type}
  (m : M T A) : P T C A :=
  fun p =>
    let '(r, w) := m (gen_world p) in
    (r, {| gen_world := w;
           _sentiment_pipe := _sentiment_pipe p;
           sentiment_trace := sentiment_trace p;
           stdin := stdin p;
           stdout := stdout p;
           stdout_accepts := stdout_accepts p |}).

(** [sys.stdout.write(text)]: the text is appended when the stream takes
    it; when it does not, the write raises and nothing of the text is
    written. *)
Definition write_stdout {T : Transformers} {C : Classifier} (text : str)
  : P T C unit :=
  fun p =>
    if stdout_accepts p (stdout p) text
    then (Ok tt, {| gen_world := gen_world p;
                    _sentiment_pipe := _sentiment_pipe p;
                    sentiment_trace := sentiment_trace p;
                    stdin := stdin p;
                    stdout := stdout p ++ text;
                    stdout_accepts := stdout_accepts p |})
    else (Raised, p).

(** [print(line)]: the line is written, then the newline. *)
Definition print {T : Transformers} {C : Classifier} (line : str)
  : P T C unit :=
  pbind (write_stdout line) (fun _ => write_stdout NL).

(** A line is taken from the standard input; at its end the read raises. *)
Definition read_line {T : Transformers} {C : Classifier} : P T C str :=
  fun p =>
    match stdin p with
    | [] => (Raised, p)
    | line :: rest =>
        (Ok line, {| gen_world := gen_world p;
                     _sentiment_pipe := _sentiment_pipe p;
                     sentiment_trace := sentiment_trace p;
                     stdin := rest;
                     stdout := stdout p;
                     stdout_accepts := stdout_accepts p |})
    end.

(** [input(prompt)]: the prompt is written, then a line is read. *)
Definition input {T : Transformers} {C : Classifier} (prompt : str)
  : P T C str :=
  pbind (write_stdout prompt) (fun _ => read_line).

Definition read_sentiment_pipe {T : Transformers} {C : Classifier}
  : P T C (option (SentimentPipeline C)) :=
  fun p => (Ok (_sentiment_pipe p), p).

Definition write_sentiment_pipe {T : Transformers} {C : Classifier}
  (pipe : SentimentPipeline C) : P T C unit :=
  fun p =>
    (Ok tt, {| gen_world := gen_world p;
               _sentiment_pipe := Some pipe;
               sentiment_trace := sentiment_trace p;
               stdin := stdin p;
               stdout := stdout p;
               stdout_accepts := stdout_accepts p |}).

Definition call_sentiment_pipeline {T : Transformers} {C : Classifier}
  (task model tokenizer : str) (return_all_scores truncation : bool)
  : P T C (SentimentPipeline C) :=
  fun p =>
    let p' := {| gen_world := gen_world p;
                 _sentiment_pipe := _sentiment_pipe p;
                 sentiment_trace :=
                   sentiment_trace p
                   ++ [EvSentimentPipeline task model tokenizer
                         return_all_scores truncation];
                 stdin := stdin p;
                 stdout := stdout p;
                 stdout_accepts := stdout_accepts p |} in
    match sentiment_pipeline C (sentiment_trace p) task model tokenizer
            return_all_scores truncation with
    | Some pipe => (Ok pipe, p')
    | None => (Raised, p')
    end.

Definition call_classify {T : Transformers} {C : Classifier}
  (pipe : SentimentPipeline C) (review : str)
  : P T C (list (list (str * spec_float))) :=
  fun p =>
    let p' := {| gen_world := gen_world p;
                 _sentiment_pipe := _sentiment_pipe p;
                 sentiment_trace := sentiment_trace p ++ [EvClassify review];
                 stdin := stdin p;
                 stdout := stdout p;
                 stdout_accepts := stdout_accepts p |} in
    match classify C (sentiment_trace p) pipe review with
    | Some out => (Ok out, p')
    | None => (Raised, p')
    end.

Declare Scope proc_scope.
Delimit Scope proc_scope with proc.
Notation "x <- m ;; k" := (pbind m (fun x => k))
  (at level 61, m at next level, right associativity) : proc_scope.

Definition get_sentiment_pipe {T : Transformers} {C : Classifier}
  : P T C (SentimentPipeline C) :=
  (cached <- read_sentiment_pipe ;;
   match cached with
   | None =>
       pipe <- call_sentiment_pipeline (lit "text-classification")
                 _SENTIMENT_MODEL_ID _SENTIMENT_MODEL_ID true true ;;
       _ <- write_sentiment_pipe pipe ;;
       pret pipe
   | Some pipe => pret pipe
   end)%proc.

(** [l[0]]; [None] stands for [IndexError]. *)
Definition index_first {A : Type} (l : list A) : option A :=
  match l with
  | [] => None
  | x :: _ => Some x
  end.

(** [max(l, key=key)] on float keys: the running maximum is replaced only
    by an item whose key is greater, so the first of several maximal items
    is kept; on an empty list it raises, which is [None]. *)
Fixpoint max_from {A : Type} (key : A -> spec_float) (maxitem : A)
  (rest : list A) : A :=
  match rest with
  | [] => maxitem
  | item :: rest' =>
      if SFltb (key maxitem) (key item)
      then max_from key item rest'
      else max_from key maxitem rest'
  end.

Definition py_max {A : Type} (key : A -> spec_float) (l : list A) : option A :=
  match l with
  | [] => None
  | x :: rest => Some (max_from key x rest)
  end.

Definition classify_sentiment {T : Transformers} {C : Classifier}
  (review : str) : P T C SentimentResult :=
  (pipe <- get_sentiment_pipe ;;
   out <- call_classify pipe review ;;
   scores <- of_option (index_first out) ;;
   top <- of_option (py_max (fun s : str * spec_float => snd s) scores) ;;
   pret {| label := fst top; confidence := snd top |})%proc.

Section Shell.
Context {T : Transformers} {C : Classifier}.
(** [str.lower] and the formatting [f"{x:.3f}"] of the Python runtime. *)
Variable lower : str -> str.
Variable format_3f : spec_float -> str.

Definition generate_feedback_response (review_text : str)
  (customer_name : option str) (use_local_generation : bool) : P T C unit :=
  (sent <- classify_sentiment review_text ;;
   let aspects := detect_aspects lower review_text DEFAULT_MAX_ASPECTS in
   let reply_base :=
     build_template_reply lower review_text sent aspects customer_name in
   reply_final <- lift_gen (maybe_paraphrase reply_base use_local_generation) ;;
   _ <- print (NL ++ lit "=== Classification ===") ;;
   _ <- print (lit "Sentiment : " ++ label sent ++ lit " (confidence="
               ++ format_3f (confidence sent) ++ lit ")") ;;
   _ <- print (NL ++ lit "=== Auto-Reply ===") ;;
   print reply_final)%proc.

(** [s or None] *)
Definition or_none (s : str) : option str :=
  match s with
  | [] => None
  | _ :: _ => Some s
  end.

Definition main : P T C unit :=
  (_ <- print (lit "=== SteamNoodles Feedback Response Agent ===") ;;
   name_line <- input (lit "Enter customer name (or leave blank): ") ;;
   let customer_name := or_none (strip name_line) in
   review_line <- input (lit "Enter customer feedback: ") ;;
   let review := strip review_line in
   generate_feedback_response review customer_name false)%proc.
End Shell.

(** A stand-in for the classifier whose runs always answer [out]. *)
Definition stub_classifier (out : list (list (str * spec_float))) : Classifier :=
  {| SentimentPipeline := unit;
     sentiment_pipeline := fun _ _ _ _ _ _ => Some tt;
     classify := fun _ _ _ => Some out |}.

(** A process at its start, on a standard output that behaves as
    [accepts] says. *)
Definition fresh_process_on (accepts : str -> str -> bool)
  (T : Transformers) (C : Classifier) (lines : list str) : Process T C :=
  {| gen_world := fresh_world T;
     _sentiment_pipe := None;
     sentiment_trace := [];
     stdin := lines;
     stdout := [];
     stdout_accepts := accepts |}.

(** A process at its start, on a standard output that takes every text. *)
Definition fresh_process (T : Transformers) (C : Classifier)
  (lines : list str) : Process T C :=
  fresh_process_on (fun _ _ => true) T C lines.

(** A standard output in the ASCII encoding: it takes the texts made of
    ASCII characters, and no other. *)
Definition ascii_stdout (written text : str) : bool :=
  forallb (fun c => N.ltb c 128) text.

(** ** Notions used to state further properties *)

(** The categories with at least one hit, in enumeration order. *)
Definition matched_categories (text_l : str) : list str :=
  filter (fun a => (0 <? aspect_score text_l a)%Z) ASPECT_NAMES.

(** No whitespace at either end. *)
Definition no_outer_space (s : str) : Prop :=
  match s with
  | [] => True
  | c :: _ => isspace c = false
  end
  /\ match rev s with
     | [] => True
     | c :: _ => isspace c = false
     end.

(** [sep] and [u] differ at a position both have. *)
Fixpoint differs (sep u : str) : bool :=
  match sep, u with
  | a :: sep', b :: u' => negb (N.eqb a b) || differs sep' u'
  | _, _ => false
  end.

(** No occurrence of [sep] can start inside [pre], whatever follows. *)
Fixpoint tails_differ (sep pre : str) : bool :=
  match pre with
  | [] => true
  | _ :: pre' => differs sep pre && tails_differ sep pre'
  end.

(** The fixed text of the prompt before the reply. *)
Definition PROMPT_HEAD : str :=
  lit "Paraphrase politely and concisely (2 sentences max). Original: ".

(** Whether a float is a NaN. *)
Definition is_nan (x : spec_float) : bool :=
  match x with
  | S754_nan => true
  | _ => false
  end.

(** A key that orders the floats that are not NaN as their comparison
    does: the sign class first, then exponent and mantissa. *)
Definition float_key (x : spec_float) : Z * Z * Z :=
  match x with
  | S754_nan => (0, 0, 0)%Z
  | S754_zero _ => (0, 0, 0)%Z
  | S754_infinity true => (-2, 0, 0)%Z
  | S754_infinity false => (2, 0, 0)%Z
  | S754_finite true m e => (-1, - e, - Z.pos m)%Z
  | S754_finite false m e => (1, e, Z.pos m)%Z
  end.

Definition key_lt (a b : Z * Z * Z) : Prop :=
  (fst (fst a) < fst (fst b))%Z
  \/ (fst (fst a) = fst (fst b)
      /\ ((snd (fst a) < snd (fst b))%Z
          \/ (snd (fst a) = snd (fst b) /\ (snd a < snd b)%Z))).

(** What [generate_feedback_response] prints for a classification and a
    final reply. *)
Definition console_report (format_3f : spec_float -> str)
  (sent : SentimentResult) (reply_final : str) : str :=
  (NL ++ lit "=== Classification ===") ++ NL
  ++ (lit "Sentiment : " ++ label sent ++ lit " (confidence="
      ++ format_3f (confidence sent) ++ lit ")") ++ NL
  ++ (NL ++ lit "=== Auto-Reply ===") ++ NL
  ++ reply_final ++ NL.


(** The reply [generate_feedback_response] builds before the paraphrase:
    the template reply for the aspects of the review under the default
    [max_aspects]. *)
Definition reply_base (lower : str -> str) (review : str)
  (sent : SentimentResult) (customer_name : option str) : str :=
  build_template_reply lower review sent
    (detect_aspects lower review DEFAULT_MAX_ASPECTS) customer_name.

(** The four prints that end [generate_feedback_response]. *)
Definition print_report {T : Transformers} {C : Classifier}
  (format_3f : spec_float -> str) (sent : SentimentResult)
  (reply_final : str) : P T C unit :=
  (_ <- print (NL ++ lit "=== Classification ===") ;;
   _ <- print (lit "Sentiment : " ++ label sent ++ lit " (confidence="
               ++ format_3f (confidence sent) ++ lit ")") ;;
   _ <- print (NL ++ lit "=== Auto-Reply ===") ;;
   print reply_final)%proc.

(** The standard output of [p] takes every text. *)
Definition accepts_all {T : Transformers} {C : Classifier} (p : Process T C)
  : Prop :=
  forall written text, stdout_accepts p written text = true.

(** [p'] is [p] but for what was written to the standard output. *)
Definition same_but_stdout {T : Transformers} {C : Classifier}
  (p p' : Process T C) : Prop :=
  gen_world p' = gen_world p
  /\ _sentiment_pipe p' = _sentiment_pipe p
  /\ sentiment_trace p' = sentiment_trace p
  /\ stdin p' = stdin p
  /\ stdout_accepts p' = stdout_accepts p.

(** [m] does nothing but write [expected] to the standard output: all of
    it when it returns, and a part of it from its start, not all, when it
    raises; it returns when the standard output takes every text. *)
Definition writes {T : Transformers} {C : Classifier} (m : P T C unit)
  (expected : str) : Prop :=
  forall p,
    same_but_stdout p (snd (m p))
    /\ (accepts_all p -> fst (m p) = Ok tt)
    /\ exists written rest,
         expected = written ++ rest
         /\ stdout (snd (m p)) = stdout p ++ written
         /\ (fst (m p) = Ok tt -> rest = [])
         /\ (fst (m p) = Raised -> rest <> []).

(** * Properties *)

(** ** Strings *)

Lemma str_eqb_eq (a b : str) : str_eqb a b = true <-> a = b.
Proof.
  revert b; induction a as [|x a IH]; intros [|y b]; simpl;
    try (split; [discriminate | discriminate]); try tauto.
  rewrite andb_true_iff, N.eqb_eq, IH.
  split; [intros [-> ->]; reflexivity | intros H; injection H; auto].
Qed.

Lemma str_eqb_neq (a b : str) : str_eqb a b = false <-> a <> b.
Proof.
  rewrite <- str_eqb_eq. destruct (str_eqb a b); split; congruence.
Qed.

Lemma startswith_spec (kw t : str) :
  startswith kw t = true <-> exists post, t = kw ++ post.
Proof.
  revert t; induction kw as [|a kw IH]; intros t; simpl.
  - split; [intros _; exists t; reflexivity | reflexivity].
  - destruct t as [|b t].
    + split; [discriminate | intros [post H]; discriminate].
    + rewrite andb_true_iff, N.eqb_eq, IH. split.
      * intros [-> [post ->]]. exists post; reflexivity.
      * intros [post H]. injection H as -> ->. split; [reflexivity | eauto].
Qed.

Lemma str_in_spec (kw t : str) : str_in kw t = true <-> Substring kw t.
Proof.
  unfold Substring. induction t as [|c t IH].
  - simpl. rewrite orb_false_r, startswith_spec. split.
    + intros [post H]. exists [], post. exact H.
    + intros [pre [post H]]. destruct pre; [eauto | discriminate].
  - cbn [str_in]. rewrite orb_true_iff, startswith_spec, IH. split.
    + intros [[post H] | [pre [post H]]].
      * exists [], post. exact H.
      * exists (c :: pre), post. simpl. rewrite H. reflexivity.
    + intros [[|c' pre] [post H]].
      * left. exists post. exact H.
      * right. injection H as _ H. eauto.
Qed.

Lemma str_in_false (kw t : str) : str_in kw t = false <-> ~ Substring kw t.
Proof.
  rewrite <- str_in_spec. destruct (str_in kw t); split; congruence.
Qed.

(** ** Lists: slicing and the stable descending sort *)

Lemma slice_to_firstn {A : Type} (l : list A) (k : Z) :
  exists n, slice_to l k = firstn n l.
Proof. unfold slice_to. destruct (k <? 0)%Z; eauto. Qed.

Lemma slice_to_length {A : Type} (l : list A) (k : Z) :
  (0 <= k)%Z -> (Z.of_nat (List.length (slice_to l k)) <= k)%Z.
Proof.
  intros Hk. unfold slice_to.
  destruct (Z.ltb_spec k 0) as [Hlt|_]; [lia|].
  pose proof (firstn_le_length (Z.to_nat k) l). lia.
Qed.

Lemma slice_to_nil {A : Type} (k : Z) : slice_to (@nil A) k = [].
Proof. unfold slice_to. destruct (k <? 0)%Z; apply firstn_nil. Qed.

Section SortReverseFacts.
Context {A : Type}.
Variable key : A -> Z.

Lemma insert_desc_perm (x : A) (l : list A) :
  Permutation (x :: l) (insert_desc key x l).
Proof.
  induction l as [|y l IH]; simpl; [reflexivity|].
  destruct (key x <? key y)%Z; [|reflexivity].
  rewrite perm_swap. constructor. exact IH.
Qed.

Lemma sort_reverse_perm (l : list A) : Permutation l (sort_reverse key l).
Proof.
  induction l as [|x l IH]; simpl; [constructor|].
  rewrite <- insert_desc_perm. constructor. exact IH.
Qed.

Variable R : A -> A -> Prop.

Lemma insert_desc_sorted (x : A) (l : list A) :
  Forall (R x) l ->
  StronglySorted (stable_desc key R) l ->
  StronglySorted (stable_desc key R) (insert_desc key x l).
Proof.
  induction l as [|y l IH]; intros HR Hs; simpl.
  - constructor; constructor.
  - apply StronglySorted_inv in Hs. destruct Hs as [Hs Hy].
    inversion HR as [|? ? HRy HRl]; subst.
    destruct (Z.ltb_spec (key x) (key y)) as [Hlt|Hge].
    + constructor; [apply IH; assumption|].
      rewrite <- insert_desc_perm. constructor; [left; exact Hlt | exact Hy].
    + constructor; [constructor; assumption|].
      assert (Hx : stable_desc key R x y).
      { destruct (Z.eq_dec (key x) (key y)) as [E|N];
          [right; split; assumption | left; lia]. }
      constructor; [exact Hx|].
      rewrite Forall_forall in *. intros z Hz.
      pose proof (Hy z Hz) as Hyz. pose proof (HRl z Hz) as Hxz.
      destruct (Z.eq_dec (key x) (key z)) as [E|N]; [right; split; assumption|].
      left. destruct Hyz as [Hyz|[Hyz _]]; lia.
Qed.

Lemma sort_reverse_sorted (l : list A) :
  StronglySorted R l -> StronglySorted (stable_desc key R) (sort_reverse key l).
Proof.
  induction l as [|x l IH]; intros Hs; simpl; [constructor|].
  apply StronglySorted_inv in Hs. destruct Hs as [Hs Hx].
  apply insert_desc_sorted; [|apply IH; exact Hs].
  rewrite <- sort_reverse_perm. exact Hx.
Qed.
End SortReverseFacts.

Lemma StronglySorted_app_inv {A : Type} (R : A -> A -> Prop) (l1 l2 : list A) :
  StronglySorted R (l1 ++ l2) ->
  StronglySorted R l1 /\ forall x y, In x l1 -> In y l2 -> R x y.
Proof.
  induction l1 as [|a l1 IH]; simpl; intros Hs.
  - split; [constructor | intros x y []].
  - apply StronglySorted_inv in Hs. destruct Hs as [Hs Ha].
    destruct (IH Hs) as [Hs1 Hc]. apply Forall_app in Ha. destruct Ha as [Ha1 Ha2].
    split; [constructor; assumption|].
    intros x y [<-|Hx] Hy; [|auto].
    rewrite Forall_forall in Ha2. auto.
Qed.

Lemma StronglySorted_filter {A : Type} (R : A -> A -> Prop) (f : A -> bool)
  (l : list A) :
  StronglySorted R l -> StronglySorted R (filter f l).
Proof.
  induction l as [|a l IH]; simpl; intros Hs; [constructor|].
  apply StronglySorted_inv in Hs. destruct Hs as [Hs Ha].
  destruct (f a); [|auto].
  constructor; [auto|].
  rewrite Forall_forall in *. intros x Hx. apply filter_In in Hx. apply Ha, Hx.
Qed.

Lemma StronglySorted_map {A B : Type} (R : B -> B -> Prop) (g : A -> B)
  (l : list A) :
  StronglySorted (fun x y => R (g x) (g y)) l -> StronglySorted R (List.map g l).
Proof.
  induction 1 as [|a l Hs IH Ha]; simpl; constructor; [exact IH|].
  rewrite Forall_forall in *. intros y Hy. apply in_map_iff in Hy.
  destruct Hy as [x [<- Hx]]. auto.
Qed.

Lemma StronglySorted_weaken {A : Type} (R S : A -> A -> Prop) (l : list A) :
  (forall x y, In x l -> In y l -> R x y -> S x y) ->
  StronglySorted R l -> StronglySorted S l.
Proof.
  intros HRS Hs. induction Hs as [|a l Hs IH Ha]; constructor.
  - apply IH. intros x y Hx Hy. apply HRS; right; assumption.
  - rewrite Forall_forall in *. intros y Hy.
    apply HRS; [left; reflexivity | right; assumption | auto].
Qed.

(** ** Keyword scores and hits *)

Lemma fold_add_ones {A : Type} (l : list A) (acc : Z) :
  fold_left Z.add (List.map (fun _ => 1%Z) l) acc
  = (acc + Z.of_nat (List.length l))%Z.
Proof.
  revert acc; induction l as [|x l IH]; intros acc; simpl fold_left.
  - simpl. lia.
  - rewrite IH. simpl List.length. lia.
Qed.

Lemma keyword_score_count (text_l : str) (kws : list str) :
  keyword_score text_l kws
  = Z.of_nat (List.length (filter (fun kw => str_in kw text_l) kws)).
Proof. unfold keyword_score, sum. rewrite fold_add_ones. lia. Qed.

Lemma keyword_score_bounds (text_l : str) (kws : list str) :
  (0 <= keyword_score text_l kws <= Z.of_nat (List.length kws))%Z.
Proof.
  rewrite keyword_score_count.
  pose proof (filter_length_le (fun kw => str_in kw text_l) kws). lia.
Qed.

Lemma keyword_score_pos (text_l : str) (kws : list str) :
  (0 < keyword_score text_l kws)%Z
  <-> exists kw, In kw kws /\ Substring kw text_l.
Proof.
  rewrite keyword_score_count. split.
  - intros H.
    destruct (filter (fun kw => str_in kw text_l) kws) as [|kw m] eqn:E;
      [simpl in H; lia|].
    assert (Hin : In kw (filter (fun kw => str_in kw text_l) kws))
      by (rewrite E; left; reflexivity).
    apply filter_In in Hin. destruct Hin as [Hin Hs].
    exists kw. split; [exact Hin | apply str_in_spec; exact Hs].
  - intros [kw [Hin Hs]].
    assert (Hf : In kw (filter (fun kw => str_in kw text_l) kws))
      by (apply filter_In; split; [exact Hin | apply str_in_spec; exact Hs]).
    destruct (filter (fun kw => str_in kw text_l) kws); [destruct Hf|].
    simpl List.length. lia.
Qed.

Lemma collect_hits_filter (text_l : str) (items : list (str * list str)) :
  collect_hits text_l items
  = filter (fun p => (snd p >? 0)%Z) (scored text_l items).
Proof.
  unfold collect_hits.
  enough (G : forall acc,
             fold_left
               (fun hits item =>
                  let '(aspect, kws) := item in
                  let score := keyword_score text_l kws in
                  if (score >? 0)%Z then hits ++ [(aspect, score)] else hits)
               items acc
             = acc ++ filter (fun p => (snd p >? 0)%Z) (scored text_l items))
    by apply (G []).
  induction items as [|[aspect kws] items IH]; intros acc; simpl.
  - rewrite app_nil_r. reflexivity.
  - rewrite IH. destruct (keyword_score text_l kws >? 0)%Z.
    + rewrite <- app_assoc. reflexivity.
    + reflexivity.
Qed.

Lemma in_collect_hits (text_l : str) (items : list (str * list str))
  (a : str) (s : Z) :
  In (a, s) (collect_hits text_l items)
  <-> exists kws, In (a, kws) items /\ s = keyword_score text_l kws
                  /\ (0 < s)%Z.
Proof.
  rewrite collect_hits_filter, filter_In. unfold scored. rewrite in_map_iff.
  simpl snd. split.
  - intros [[[a' kws] [E Hin]] Hpos]. simpl in E. injection E as <- <-.
    exists kws. repeat split; [exact Hin | lia].
  - intros [kws [Hin [-> Hpos]]]. split; [|lia].
    exists (a, kws). split; [reflexivity | exact Hin].
Qed.

Lemma aspect_score_keywords (text_l a : str) (kws : list str) :
  In (a, kws) ASPECT_KEYWORDS -> aspect_score text_l a = keyword_score text_l kws.
Proof.
  unfold ASPECT_KEYWORDS. cbn [In]. intros H.
  repeat (destruct H as [H|H]; [injection H as <- <-; reflexivity|]).
  destruct H.
Qed.

Lemma aspect_names_keywords (a : str) :
  In a ASPECT_NAMES <-> exists kws, In (a, kws) ASPECT_KEYWORDS.
Proof.
  unfold ASPECT_NAMES. rewrite in_map_iff. split.
  - intros [[a' kws] [<- Hin]]. exists kws. exact Hin.
  - intros [kws Hin]. exists (a, kws). split; [reflexivity | exact Hin].
Qed.

Lemma aspect_keywords_enumerated :
  StronglySorted (fun x y : str * list str => aspect_rank (fst x) < aspect_rank (fst y))
    ASPECT_KEYWORDS.
Proof.
  unfold ASPECT_KEYWORDS.
  repeat (apply SSorted_cons;
          [|repeat (apply Forall_cons; [vm_compute; lia|]); apply Forall_nil]).
  apply SSorted_nil.
Qed.

(** ** The ranking *)

Lemma ranked_hits_perm (text_l : str) :
  Permutation (collect_hits text_l ASPECT_KEYWORDS) (ranked_hits text_l).
Proof. apply sort_reverse_perm. Qed.

Lemma in_ranked_hits (text_l a : str) (s : Z) :
  In (a, s) (ranked_hits text_l)
  <-> In a ASPECT_NAMES /\ s = aspect_score text_l a /\ (0 < s)%Z.
Proof.
  split.
  - intros H. apply (Permutation_in _ (Permutation_sym (ranked_hits_perm text_l))) in H.
    apply in_collect_hits in H. destruct H as [kws [Hin [-> Hpos]]].
    rewrite (aspect_score_keywords text_l _ _ Hin).
    split; [apply aspect_names_keywords; eauto | split; [reflexivity | exact Hpos]].
  - intros [Hn [-> Hpos]]. apply aspect_names_keywords in Hn. destruct Hn as [kws Hin].
    apply (Permutation_in _ (ranked_hits_perm text_l)).
    apply in_collect_hits. exists kws.
    rewrite <- (aspect_score_keywords text_l _ _ Hin). auto.
Qed.

Lemma ranked_hits_sorted (text_l : str) :
  StronglySorted (fun p q => ranks_before text_l (fst p) (fst q))
    (ranked_hits text_l).
Proof.
  apply StronglySorted_weaken
    with (R := stable_desc (fun x : str * Z => snd x)
                 (fun p q => aspect_rank (fst p) < aspect_rank (fst q))).
  - intros [a s] [b u] Ha Hb. apply in_ranked_hits in Ha, Hb.
    destruct Ha as [_ [-> _]]. destruct Hb as [_ [-> _]].
    unfold stable_desc, ranks_before. simpl. tauto.
  - apply sort_reverse_sorted. rewrite collect_hits_filter.
    apply StronglySorted_filter. unfold scored.
    apply StronglySorted_map with
      (R := fun p q : str * Z => aspect_rank (fst p) < aspect_rank (fst q)).
    exact aspect_keywords_enumerated.
Qed.

Lemma no_specific_aspect_not_a_name : ~ In NO_SPECIFIC_ASPECT ASPECT_NAMES.
Proof.
  unfold ASPECT_NAMES, ASPECT_KEYWORDS. cbn [List.map fst In].
  intros H. repeat (destruct H as [H|H]; [discriminate H|]). exact H.
Qed.

(** What [detect_aspects] returns, in terms of the ranking. *)
Lemma detect_aspects_unfold (lower : str -> str) (text : str) (max_aspects : Z) :
  detect_aspects lower text max_aspects
  = match List.map fst (slice_to (ranked_hits (lower text)) max_aspects) with
    | [] => [NO_SPECIFIC_ASPECT]
    | a :: l => a :: l
    end.
Proof.
  unfold detect_aspects. fold (ranked_hits (lower text)).
  destruct (List.map fst (slice_to (ranked_hits (lower text)) max_aspects));
    reflexivity.
Qed.

Lemma detect_aspects_cases (lower : str -> str) (text : str) (max_aspects : Z) :
  (detect_aspects lower text max_aspects = [NO_SPECIFIC_ASPECT]
   /\ slice_to (ranked_hits (lower text)) max_aspects = [])
  \/ (detect_aspects lower text max_aspects
      = List.map fst (slice_to (ranked_hits (lower text)) max_aspects)
      /\ slice_to (ranked_hits (lower text)) max_aspects <> []).
Proof.
  rewrite detect_aspects_unfold.
  destruct (slice_to (ranked_hits (lower text)) max_aspects) as [|p l].
  - left. split; reflexivity.
  - right. split; [reflexivity | discriminate].
Qed.

Lemma ranked_hits_nil (text_l : str) :
  (forall a kws kw, In (a, kws) ASPECT_KEYWORDS -> In kw kws ->
                    ~ Substring kw text_l) ->
  ranked_hits text_l = [].
Proof.
  intros Hno. destruct (ranked_hits text_l) as [|[a s] l] eqn:E; [reflexivity|].
  assert (Hin : In (a, s) (ranked_hits text_l)) by (rewrite E; left; reflexivity).
  apply in_ranked_hits in Hin. destruct Hin as [Hn [-> Hpos]].
  apply aspect_names_keywords in Hn. destruct Hn as [kws Hk].
  rewrite (aspect_score_keywords text_l _ _ Hk) in Hpos.
  apply keyword_score_pos in Hpos. destruct Hpos as [kw [Hkw Hs]].
  exfalso. exact (Hno a kws kw Hk Hkw Hs).
Qed.

Lemma filter_none {A : Type} (f : A -> bool) (l : list A) :
  (forall x, In x l -> f x = false) -> filter f l = [].
Proof.
  induction l as [|x l IH]; intros H; simpl; [reflexivity|].
  rewrite (H x (or_introl eq_refl)). apply IH. intros y Hy. apply H. right. exact Hy.
Qed.

Lemma keyword_score_zero (text_l : str) (kws : list str) :
  (forall kw, In kw kws -> ~ Substring kw text_l) -> keyword_score text_l kws = 0%Z.
Proof.
  intros H. pose proof (keyword_score_bounds text_l kws) as [Hlo _].
  destruct (Z.eq_dec (keyword_score text_l kws) 0) as [E|N]; [exact E|].
  assert (Hpos : (0 < keyword_score text_l kws)%Z) by lia.
  apply keyword_score_pos in Hpos. destruct Hpos as [kw [Hin Hs]].
  exfalso. exact (H kw Hin Hs).
Qed.

Lemma collect_hits_head_only (text_l : str) (a : str) (kws : list str)
  (rest : list (str * list str)) :
  (0 < keyword_score text_l kws)%Z ->
  (forall b kws', In (b, kws') rest -> keyword_score text_l kws' = 0%Z) ->
  collect_hits text_l ((a, kws) :: rest) = [(a, keyword_score text_l kws)].
Proof.
  intros Hpos Hrest. rewrite collect_hits_filter. unfold scored. simpl.
  destruct (Z.gtb_spec (keyword_score text_l kws) 0) as [_|Hle]; [|lia].
  f_equal. apply filter_none. intros [b s] Hin. apply in_map_iff in Hin.
  destruct Hin as [[b' kws'] [E Hin]]. simpl in E. injection E as <- <-.
  simpl. rewrite (Hrest _ _ Hin). reflexivity.
Qed.

Lemma slice_to_singleton {A : Type} (x : A) (k : Z) :
  (1 <= k)%Z -> slice_to [x] k = [x].
Proof.
  intros Hk. unfold slice_to.
  destruct (Z.ltb_spec k 0) as [Hlt|_]; [lia|].
  destruct (Z.to_nat k) as [|n] eqn:E; [lia|].
  simpl. rewrite firstn_nil. reflexivity.
Qed.

(** ** Aspect detector *)

(** Runs of the detector on ASCII text. *)
Example detect_aspects_top_two :
  detect_aspects ascii_lower (lit "Rude staff, slow service, cold soup")
    DEFAULT_MAX_ASPECTS
  = [lit "service"; lit "food"].
Proof. reflexivity. Qed.

Example detect_aspects_tie_keeps_enumeration_order :
  detect_aspects ascii_lower (lit "price bill staff food") 5
  = [lit "price"; lit "food"; lit "service"].
Proof. reflexivity. Qed.

Lemma detect_aspects_prefix (lower : str -> str) (text : str) (max_aspects : Z) :
  detect_aspects lower text max_aspects = [NO_SPECIFIC_ASPECT]
  \/ exists n, detect_aspects lower text max_aspects
               = List.map fst (firstn n (ranked_hits (lower text))).
Proof.
  destruct (detect_aspects_cases lower text max_aspects) as [[E _]|[E _]];
    [left; exact E | right].
  destruct (slice_to_firstn (ranked_hits (lower text)) max_aspects) as [n En].
  exists n. rewrite E, En. reflexivity.
Qed.

Lemma detect_aspects_length (lower : str -> str) (text : str) (max_aspects : Z) :
  (1 <= max_aspects)%Z ->
  (Z.of_nat (List.length (detect_aspects lower text max_aspects)) <= max_aspects)%Z.
Proof.
  intros Hk.
  destruct (detect_aspects_cases lower text max_aspects) as [[E _]|[E _]];
    rewrite E.
  - simpl. lia.
  - rewrite length_map. apply slice_to_length. lia.
Qed.

Section RankedPrefix.
Variable text_l : str.
Variable n : nat.

Lemma in_prefix_ranked (p : str * Z) :
  In p (firstn n (ranked_hits text_l)) -> In p (ranked_hits text_l).
Proof.
  intros H. rewrite <- (firstn_skipn n (ranked_hits text_l)).
  apply in_or_app. left. exact H.
Qed.

Lemma prefix_members :
  Forall (fun a => In a ASPECT_NAMES /\ (0 < aspect_score text_l a)%Z)
    (List.map fst (firstn n (ranked_hits text_l))).
Proof.
  apply Forall_forall. intros a Ha. apply in_map_iff in Ha.
  destruct Ha as [[a' s] [<- Hin]]. apply in_prefix_ranked in Hin.
  apply in_ranked_hits in Hin. destruct Hin as [Hn [-> Hpos]]. auto.
Qed.

Lemma prefix_sorted :
  StronglySorted (ranks_before text_l)
    (List.map fst (firstn n (ranked_hits text_l))).
Proof.
  pose proof (ranked_hits_sorted text_l) as Hs.
  rewrite <- (firstn_skipn n (ranked_hits text_l)) in Hs.
  apply StronglySorted_app_inv in Hs. destruct Hs as [Hs _].
  apply StronglySorted_map. exact Hs.
Qed.

Lemma prefix_best (a c : str) :
  In a (List.map fst (firstn n (ranked_hits text_l))) ->
  In c ASPECT_NAMES -> (0 < aspect_score text_l c)%Z ->
  ~ In c (List.map fst (firstn n (ranked_hits text_l))) ->
  ranks_before text_l a c.
Proof.
  intros Ha Hc Hpos Hnot.
  pose proof (ranked_hits_sorted text_l) as Hs.
  rewrite <- (firstn_skipn n (ranked_hits text_l)) in Hs.
  apply StronglySorted_app_inv in Hs. destruct Hs as [_ Hcross].
  apply in_map_iff in Ha. destruct Ha as [p [<- Hp]].
  assert (Hin : In (c, aspect_score text_l c) (ranked_hits text_l))
    by (apply in_ranked_hits; auto).
  rewrite <- (firstn_skipn n (ranked_hits text_l)) in Hin.
  apply in_app_or in Hin. destruct Hin as [Hin|Hin].
  - exfalso. apply Hnot. apply in_map_iff.
    exists (c, aspect_score text_l c). split; [reflexivity | exact Hin].
  - exact (Hcross _ _ Hp Hin).
Qed.
End RankedPrefix.

(** C2, as the code has it: for every text the returned list is either the
    sentinel alone or a list of categories with a positive hit count, ordered
    by descending hit count with ties in enumeration order, and holding the
    best ranked categories (every category with hits that is left out ranks
    after every category returned); for every [max_aspects] of at least 1 its
    length is at most [max_aspects]. *)
Theorem detect_aspects_ranked (lower : str -> str) (text : str) (max_aspects : Z) :
  ((1 <= max_aspects)%Z ->
   (Z.of_nat (List.length (detect_aspects lower text max_aspects)) <= max_aspects)%Z)
  /\ (detect_aspects lower text max_aspects = [NO_SPECIFIC_ASPECT]
      \/ (Forall (fun a => In a ASPECT_NAMES /\ (0 < aspect_score (lower text) a)%Z)
            (detect_aspects lower text max_aspects)
          /\ StronglySorted (ranks_before (lower text))
               (detect_aspects lower text max_aspects)
          /\ forall a c,
               In a (detect_aspects lower text max_aspects) ->
               In c ASPECT_NAMES -> (0 < aspect_score (lower text) c)%Z ->
               ~ In c (detect_aspects lower text max_aspects) ->
               ranks_before (lower text) a c)).
Proof.
  split; [apply detect_aspects_length|].
  destruct (detect_aspects_prefix lower text max_aspects) as [E|[n E]];
    [left; exact E | right; rewrite E].
  split; [apply prefix_members|].
  split; [apply prefix_sorted | apply prefix_best].
Qed.

(** C2 at an input: two categories are asked for and two are returned, the
    one with more hits first. *)
Lemma detect_aspects_ranked_witness :
  (1 <= 2)%Z
  /\ (Z.of_nat (List.length
        (detect_aspects ascii_lower (lit "Rude staff, slow service, cold soup") 2))
      <= 2)%Z.
Proof.
  split; [lia|].
  apply (proj1 (detect_aspects_ranked ascii_lower
                  (lit "Rude staff, slow service, cold soup") 2)).
  lia.
Defined.

(** C2 as stated fails: with [max_aspects = 0] nothing is retained and the
    sentinel is returned, a list of length 1; a negative [max_aspects] drops
    categories from the end of the ranking instead. *)
Lemma detect_aspects_length_counterexample :
  detect_aspects ascii_lower (lit "the soup was cold") 0 = [NO_SPECIFIC_ASPECT]
  /\ detect_aspects ascii_lower (lit "staff food price") (-1)
     = [lit "food"; lit "service"]
  /\ ~ (forall (lower : str -> str) (text : str) (max_aspects : Z),
          (Z.of_nat (List.length (detect_aspects lower text max_aspects))
           <= max_aspects)%Z).
Proof.
  split; [reflexivity|]. split; [reflexivity|].
  intros H. specialize (H ascii_lower (lit "the soup was cold") 0%Z).
  change (detect_aspects ascii_lower (lit "the soup was cold") 0)
    with [NO_SPECIFIC_ASPECT] in H.
  simpl in H. lia.
Qed.

(** C3: when no keyword of any category occurs in the lowercased text,
    [detect_aspects] returns the list of the one string "no specific aspect",
    whatever [max_aspects] is;
    and its result is never the empty list. *)
Theorem detect_aspects_sentinel (lower : str -> str) (text : str) (max_aspects : Z) :
  ((forall a kws kw, In (a, kws) ASPECT_KEYWORDS -> In kw kws ->
                     ~ Substring kw (lower text)) ->
   detect_aspects lower text max_aspects = [lit "no specific aspect"])
  /\ detect_aspects lower text max_aspects <> [].
Proof.
  split.
  - intros Hno. rewrite detect_aspects_unfold, (ranked_hits_nil _ Hno), slice_to_nil.
    reflexivity.
  - rewrite detect_aspects_unfold.
    destruct (List.map fst (slice_to (ranked_hits (lower text)) max_aspects));
      discriminate.
Qed.

Lemma keywords_absent_check (t : str) (items : list (str * list str)) :
  forallb (fun item => forallb (fun kw => negb (str_in kw t)) (snd item)) items
  = true ->
  forall a kws kw, In (a, kws) items -> In kw kws -> ~ Substring kw t.
Proof.
  intros H a kws kw Hin Hkw. rewrite forallb_forall in H.
  specialize (H _ Hin). simpl in H. rewrite forallb_forall in H.
  specialize (H _ Hkw). apply negb_true_iff in H. apply str_in_false. exact H.
Qed.

(** C3 at an input without any keyword. *)
Lemma detect_aspects_sentinel_witness :
  (forall a kws kw, In (a, kws) ASPECT_KEYWORDS -> In kw kws ->
                    ~ Substring kw (ascii_lower (lit "Thank you!")))
  /\ detect_aspects ascii_lower (lit "Thank you!") 2
     = [lit "no specific aspect"].
Proof.
  assert (H : forall a kws kw, In (a, kws) ASPECT_KEYWORDS -> In kw kws ->
                               ~ Substring kw (ascii_lower (lit "Thank you!")))
    by (apply keywords_absent_check; reflexivity).
  split; [exact H|].
  exact (proj1 (detect_aspects_sentinel ascii_lower (lit "Thank you!") 2) H).
Defined.

Lemma food_keywords_head (kws : list str) :
  In (lit "food", kws) ASPECT_KEYWORDS ->
  ASPECT_KEYWORDS = (lit "food", kws) :: tl ASPECT_KEYWORDS.
Proof.
  unfold ASPECT_KEYWORDS. cbn [In tl]. intros H.
  destruct H as [H|H]; [injection H as <-; reflexivity|].
  repeat (destruct H as [H|H];
          [apply (f_equal fst) in H; vm_compute in H; discriminate H|]).
  destruct H.
Qed.

Lemma aspect_keywords_tail (b : str) (kws : list str) :
  In (b, kws) (tl ASPECT_KEYWORDS) ->
  b <> lit "food" /\ In (b, kws) ASPECT_KEYWORDS.
Proof.
  unfold ASPECT_KEYWORDS. cbn [In tl]. intros H. split; [|right; exact H].
  repeat (destruct H as [H|H];
          [apply (f_equal fst) in H; simpl fst in H; subst b;
           intros E; vm_compute in E; discriminate E|]).
  destruct H.
Qed.

(** C4: a keyword that occurs in the lowercased text adds exactly 1 to the
    hit count of its category and one that does not adds nothing; the hits
    that are ranked are exactly the categories with a positive count, so no
    returned category has a zero count; and a text with keywords of the food
    category only yields exactly [["food"]], under the default [max_aspects]
    and under any [max_aspects] of at least 1. *)
Theorem detect_aspects_hit_counts (lower : str -> str) (text : str) :
  keyword_score (lower text) [] = 0%Z
  /\ (forall kw kws, Substring kw (lower text) ->
        keyword_score (lower text) (kw :: kws)
        = (1 + keyword_score (lower text) kws)%Z)
  /\ (forall kw kws, ~ Substring kw (lower text) ->
        keyword_score (lower text) (kw :: kws) = keyword_score (lower text) kws)
  /\ (forall a s, In (a, s) (collect_hits (lower text) ASPECT_KEYWORDS)
        <-> exists kws, In (a, kws) ASPECT_KEYWORDS
                        /\ s = keyword_score (lower text) kws /\ (0 < s)%Z)
  /\ (forall a s, In (a, s) (ranked_hits (lower text))
        <-> In (a, s) (collect_hits (lower text) ASPECT_KEYWORDS))
  /\ (forall max_aspects,
        detect_aspects lower text max_aspects = [NO_SPECIFIC_ASPECT]
        \/ Forall (fun a => In a ASPECT_NAMES
                            /\ (0 < aspect_score (lower text) a)%Z)
             (detect_aspects lower text max_aspects))
  /\ ((exists kws kw, In (lit "food", kws) ASPECT_KEYWORDS /\ In kw kws
                      /\ Substring kw (lower text)) ->
      (forall a kws kw, In (a, kws) ASPECT_KEYWORDS -> a <> lit "food" ->
                        In kw kws -> ~ Substring kw (lower text)) ->
      detect_aspects lower text DEFAULT_MAX_ASPECTS = [lit "food"]
      /\ forall max_aspects, (1 <= max_aspects)%Z ->
           detect_aspects lower text max_aspects = [lit "food"]).
Proof.
  assert (Hstep : forall kw kws,
             keyword_score (lower text) (kw :: kws)
             = ((if str_in kw (lower text) then 1 else 0)
                + keyword_score (lower text) kws)%Z).
  { intros kw kws. rewrite !keyword_score_count. simpl filter.
    destruct (str_in kw (lower text)); simpl List.length; lia. }
  split; [reflexivity|].
  split; [intros kw kws H; rewrite Hstep; apply str_in_spec in H; rewrite H;
          reflexivity|].
  split; [intros kw kws H; rewrite Hstep; apply str_in_false in H; rewrite H;
          reflexivity|].
  split; [intros a s; apply in_collect_hits|].
  split.
  { intros a s. split; intros H.
    - exact (Permutation_in _ (Permutation_sym (ranked_hits_perm _)) H).
    - exact (Permutation_in _ (ranked_hits_perm _) H). }
  split.
  { intros max_aspects.
    destruct (detect_aspects_prefix lower text max_aspects) as [E|[n E]];
      [left; exact E | right; rewrite E; apply prefix_members]. }
  intros [kws [kw [Hfood [Hkw Hsub]]]] Hother.
  enough (G : forall max_aspects, (1 <= max_aspects)%Z ->
                detect_aspects lower text max_aspects = [lit "food"]).
  { split; [apply G; unfold DEFAULT_MAX_ASPECTS; lia | exact G]. }
  intros max_aspects Hk.
  rewrite detect_aspects_unfold. unfold ranked_hits.
  rewrite (food_keywords_head _ Hfood).
  rewrite collect_hits_head_only.
  - simpl sort_reverse. rewrite slice_to_singleton by exact Hk. reflexivity.
  - apply keyword_score_pos. exists kw. split; assumption.
  - intros b kws' Hin. apply aspect_keywords_tail in Hin. destruct Hin as [Hb Hin].
    apply keyword_score_zero. intros kw' Hkw'. exact (Hother b kws' kw' Hin Hb Hkw').
Qed.

(** C4 at an input that repeats one food keyword and has no other: the
    count is 1 and the answer is [["food"]]. *)
Lemma detect_aspects_hit_counts_witness :
  aspect_score (ascii_lower (lit "Food, FOOD, food!")) (lit "food") = 1%Z
  /\ detect_aspects ascii_lower (lit "Food, FOOD, food!") DEFAULT_MAX_ASPECTS
     = [lit "food"].
Proof.
  split; [reflexivity|].
  refine (proj1 (proj2 (proj2 (proj2 (proj2 (proj2 (proj2
            (detect_aspects_hit_counts ascii_lower (lit "Food, FOOD, food!"))))))) _ _)).
  - exists (List.map lit ["food"; "taste"; "noodle"; "soup"; "broth"; "dish"; "meal";
                          "menu"; "flavor"; "fresh"; "cold"; "hot"]%string),
      (lit "food").
    split; [left; reflexivity|].
    split; [left; reflexivity|].
    apply str_in_spec. reflexivity.
  - intros a kws kw Hin Hne.
    assert (Ht : In (a, kws) (tl ASPECT_KEYWORDS)).
    { destruct Hin as [E|Hin]; [|exact Hin].
      exfalso. apply Hne. injection E as <- _. reflexivity. }
    clear Hin Hne. revert a kws kw Ht. apply keywords_absent_check. reflexivity.
Defined.

(** ** Severity heuristic *)

Lemma is_ascii_check (s : str) :
  forallb (fun c => N.ltb c 128) s = true -> is_ascii s.
Proof.
  intros H. apply Forall_forall. intros c Hc. rewrite forallb_forall in H.
  apply N.ltb_lt. exact (H c Hc).
Qed.

(** C7: [is_strong_negative] holds exactly when a term of the lexicon occurs
    in the lowercased text; where [lower] is the lowering of Python on ASCII
    text, it is false for "the soup was cold" and true for "this is
    unacceptable". *)
Theorem is_strong_negative_iff (lower : str -> str) :
  NEG_STRONG_TERMS
  = List.map lit ["terrible"; "awful"; "horrible"; "worst"; "disgusting";
                  "refund"; "complaint"; "unacceptable"]%string
  /\ (forall text,
        is_strong_negative lower text = true
        <-> exists term, In term NEG_STRONG_TERMS /\ Substring term (lower text))
  /\ ((forall s, is_ascii s -> lower s = ascii_lower s) ->
      is_strong_negative lower (lit "the soup was cold") = false
      /\ is_strong_negative lower (lit "this is unacceptable") = true).
Proof.
  split; [reflexivity|]. split.
  - intros text. unfold is_strong_negative. rewrite existsb_exists.
    split; intros [term [Hin Hs]]; exists term; (split; [exact Hin|]);
      apply str_in_spec; exact Hs.
  - intros Hlower. unfold is_strong_negative.
    rewrite !Hlower by (apply is_ascii_check; reflexivity).
    split; reflexivity.
Qed.

(** C7 at the lowering of ASCII text. *)
Lemma is_strong_negative_iff_witness :
  (forall s, is_ascii s -> ascii_lower s = ascii_lower s)
  /\ is_strong_negative ascii_lower (lit "the soup was cold") = false
  /\ is_strong_negative ascii_lower (lit "this is unacceptable") = true.
Proof.
  assert (H : forall s, is_ascii s -> ascii_lower s = ascii_lower s)
    by (intros s _; reflexivity).
  split; [exact H|].
  exact (proj2 (proj2 (is_strong_negative_iff ascii_lower)) H).
Defined.

(** ** Reply template engine *)

Lemma name_prefix_salutation (customer_name : option str) :
  (if truthy customer_name
   then lit "Hi " ++ format_opt customer_name ++ lit ","
   else lit "Hi there,")
  = spec_salutation customer_name.
Proof. destruct customer_name as [[|c name]|]; reflexivity. Qed.

Section TemplateFacts.
Variable lower : str -> str.
Variables (review : str) (aspects : list str) (customer_name : option str).

Lemma reply_positive (sentiment : SentimentResult) :
  label sentiment = lit "positive" ->
  build_template_reply lower review sentiment aspects customer_name
  = spec_salutation customer_name ++ positive_body aspects
    ++ NL ++ NL ++ POSITIVE_CLOSING.
Proof.
  intros E. unfold build_template_reply. rewrite name_prefix_salutation, E.
  reflexivity.
Qed.

Lemma reply_neutral (sentiment : SentimentResult) :
  label sentiment = lit "neutral" ->
  build_template_reply lower review sentiment aspects customer_name
  = spec_salutation customer_name ++ neutral_body aspects
    ++ NL ++ NL ++ NEUTRAL_CLOSING.
Proof.
  intros E. unfold build_template_reply. rewrite name_prefix_salutation, E.
  reflexivity.
Qed.

Lemma reply_otherwise (sentiment : SentimentResult) :
  label sentiment <> lit "positive" ->
  label sentiment <> lit "neutral" ->
  build_template_reply lower review sentiment aspects customer_name
  = spec_salutation customer_name
    ++ apology_body (if is_strong_negative lower review
                     then STRONG_APOLOGY else PLAIN_APOLOGY) aspects
    ++ NL ++ NL ++ NEGATIVE_CLOSING.
Proof.
  intros Hp Hn. unfold build_template_reply. rewrite name_prefix_salutation.
  apply str_eqb_neq in Hp, Hn. rewrite Hp, Hn.
  destruct (is_strong_negative lower review); reflexivity.
Qed.
End TemplateFacts.

Lemma Substring_mid (pre kw post : str) : Substring kw (pre ++ kw ++ post).
Proof. exists pre, post. reflexivity. Qed.

Lemma Substring_app_r (kw pre t : str) : Substring kw t -> Substring kw (pre ++ t).
Proof.
  intros [a [b ->]]. exists (pre ++ a), b. rewrite <- app_assoc. reflexivity.
Qed.

Lemma Substring_app_l (kw t post : str) : Substring kw t -> Substring kw (t ++ post).
Proof.
  intros [a [b ->]]. exists a, (b ++ post). rewrite <- !app_assoc. reflexivity.
Qed.

(** C1: the reply is the salutation, then the body selected by the label,
    then an empty line (two newline characters, [NL] being the line feed),
    then the closing signature; the salutation greets
    the customer by name when a non-empty name is given and says "Hi there,"
    otherwise; the body carries the aspects joined with ", " in the order
    given.  For label "positive", aspects ["food"] and name "Alice" the reply
    starts with "Hi Alice,", contains "food" and ends with the line
    "Warm thanks, SteamNoodles Team". *)
Theorem build_template_reply_shape (lower : str -> str) (review : str)
  (conf : spec_float) (aspects : list str) (customer_name : option str) :
  NL = [10%N]
  /\ (spec_salutation None = lit "Hi there,"
   /\ spec_salutation (Some []) = lit "Hi there,"
   /\ forall c name,
        spec_salutation (Some (c :: name)) = lit "Hi " ++ (c :: name) ++ lit ",")
  /\ (join (lit ", ") [] = []
      /\ (forall p, join (lit ", ") [p] = p)
      /\ forall p q rest,
           join (lit ", ") (p :: q :: rest)
           = p ++ lit ", " ++ join (lit ", ") (q :: rest))
  /\ (forall sentiment, exists body closing,
        build_template_reply lower review sentiment aspects customer_name
        = spec_salutation customer_name ++ body ++ NL ++ NL ++ closing
        /\ Substring (join (lit ", ") aspects) body
        /\ In closing [POSITIVE_CLOSING; NEUTRAL_CLOSING; NEGATIVE_CLOSING])
  /\ build_template_reply lower review
       {| label := lit "positive"; confidence := conf |} aspects customer_name
     = spec_salutation customer_name
       ++ (lit " thank you for the wonderful feedback! We're thrilled that you enjoyed the "
           ++ join (lit ", ") aspects
           ++ lit ". Your kind words mean a lot to our team.")
       ++ NL ++ NL ++ lit "Warm thanks, SteamNoodles Team"
  /\ build_template_reply lower review
       {| label := lit "neutral"; confidence := conf |} aspects customer_name
     = spec_salutation customer_name
       ++ (lit " thanks for sharing your thoughts. We will keep your notes about the "
           ++ join (lit ", ") aspects ++ lit " in mind as we improve.")
       ++ NL ++ NL ++ lit "Kind regards, SteamNoodles Team"
  /\ build_template_reply lower review
       {| label := lit "negative"; confidence := conf |} aspects customer_name
     = spec_salutation customer_name
       ++ (lit " "
           ++ (if is_strong_negative lower review
               then STRONG_APOLOGY else PLAIN_APOLOGY)
           ++ lit " that your experience with the "
           ++ join (lit ", ") aspects
           ++ lit " didn't meet expectations. Your feedback helps us improve.")
       ++ NL ++ NL ++ lit "Sincerely, SteamNoodles Support"
  /\ (startswith (lit "Hi Alice,")
        (build_template_reply lower review
           {| label := lit "positive"; confidence := conf |}
           [lit "food"] (Some (lit "Alice"))) = true
      /\ Substring (lit "food")
           (build_template_reply lower review
              {| label := lit "positive"; confidence := conf |}
              [lit "food"] (Some (lit "Alice")))
      /\ exists before,
           build_template_reply lower review
             {| label := lit "positive"; confidence := conf |}
             [lit "food"] (Some (lit "Alice"))
           = before ++ NL ++ lit "Warm thanks, SteamNoodles Team").
Proof.
  split; [reflexivity|].
  split; [repeat split|].
  split; [repeat split|].
  split.
  { intros sentiment.
    destruct (str_eqb (label sentiment) (lit "positive")) eqn:Ep.
    - apply str_eqb_eq in Ep.
      exists (positive_body aspects), POSITIVE_CLOSING.
      split; [apply reply_positive; exact Ep|].
      split; [apply Substring_mid | left; reflexivity].
    - apply str_eqb_neq in Ep.
      destruct (str_eqb (label sentiment) (lit "neutral")) eqn:En.
      + apply str_eqb_eq in En.
        exists (neutral_body aspects), NEUTRAL_CLOSING.
        split; [apply reply_neutral; exact En|].
        split; [apply Substring_mid | right; left; reflexivity].
      + apply str_eqb_neq in En.
        exists (apology_body (if is_strong_negative lower review
                              then STRONG_APOLOGY else PLAIN_APOLOGY) aspects),
          NEGATIVE_CLOSING.
        split; [apply reply_otherwise; assumption|].
        split; [|right; right; left; reflexivity].
        unfold apology_body. do 2 apply Substring_app_r. apply Substring_mid. }
  split; [apply reply_positive; reflexivity|].
  split; [apply reply_neutral; reflexivity|].
  split; [apply reply_otherwise; simpl; intros E; vm_compute in E; discriminate E|].
  rewrite reply_positive by reflexivity.
  split; [reflexivity|].
  split.
  - apply Substring_app_r. unfold positive_body.
    apply Substring_app_l. apply Substring_mid.
  - exists (spec_salutation (Some (lit "Alice")) ++ positive_body [lit "food"] ++ NL).
    rewrite <- !app_assoc. reflexivity.
Qed.

Lemma apologies_differ (aspects : list str) :
  apology_body STRONG_APOLOGY aspects <> apology_body PLAIN_APOLOGY aspects.
Proof. unfold apology_body. intros E. vm_compute in E. discriminate E. Qed.

(** C5: under the label "negative" the apology is the plain "We're sorry"
    when [is_strong_negative] is false on the review and the intensified one
    when it is true, and the two replies differ; the review reaches the reply
    through [is_strong_negative] alone; under the labels "positive" and
    "neutral" the reply is the same for every review.  For a severe review,
    aspects ["service"] and no name, the reply starts with "Hi there," and
    carries the intensified apology. *)
Theorem severity_only_in_negative (lower : str -> str) (review : str)
  (conf : spec_float) (aspects : list str) (customer_name : option str) :
  PLAIN_APOLOGY = lit "We're sorry"
  /\ STRONG_APOLOGY = lit "We" ++ [RIGHT_SINGLE_QUOTE] ++ lit "re truly sorry"
  /\ (is_strong_negative lower review = false ->
      build_template_reply lower review
        {| label := lit "negative"; confidence := conf |} aspects customer_name
      = spec_salutation customer_name ++ apology_body PLAIN_APOLOGY aspects
        ++ NL ++ NL ++ NEGATIVE_CLOSING)
  /\ (is_strong_negative lower review = true ->
      build_template_reply lower review
        {| label := lit "negative"; confidence := conf |} aspects customer_name
      = spec_salutation customer_name ++ apology_body STRONG_APOLOGY aspects
        ++ NL ++ NL ++ NEGATIVE_CLOSING)
  /\ (forall review',
        is_strong_negative lower review <> is_strong_negative lower review' ->
        build_template_reply lower review
          {| label := lit "negative"; confidence := conf |} aspects customer_name
        <> build_template_reply lower review'
             {| label := lit "negative"; confidence := conf |} aspects
             customer_name)
  /\ (forall review' sentiment,
        is_strong_negative lower review = is_strong_negative lower review' ->
        build_template_reply lower review sentiment aspects customer_name
        = build_template_reply lower review' sentiment aspects customer_name)
  /\ (forall review',
        build_template_reply lower review
          {| label := lit "positive"; confidence := conf |} aspects customer_name
        = build_template_reply lower review'
            {| label := lit "positive"; confidence := conf |} aspects
            customer_name)
  /\ (forall review',
        build_template_reply lower review
          {| label := lit "neutral"; confidence := conf |} aspects customer_name
        = build_template_reply lower review'
            {| label := lit "neutral"; confidence := conf |} aspects
            customer_name)
  /\ (is_strong_negative lower review = true ->
      build_template_reply lower review
        {| label := lit "negative"; confidence := conf |} [lit "service"] None
      = lit "Hi there, We" ++ [RIGHT_SINGLE_QUOTE]
        ++ lit "re truly sorry that your experience with the service didn't meet expectations. Your feedback helps us improve."
        ++ NL ++ NL ++ lit "Sincerely, SteamNoodles Support").
Proof.
  assert (Hneg : forall r a n,
             build_template_reply lower r
               {| label := lit "negative"; confidence := conf |} a n
             = spec_salutation n
               ++ apology_body (if is_strong_negative lower r
                                then STRONG_APOLOGY else PLAIN_APOLOGY) a
               ++ NL ++ NL ++ NEGATIVE_CLOSING).
  { intros r a n. apply reply_otherwise; simpl; intros E; vm_compute in E;
      discriminate E. }
  split; [reflexivity|]. split; [reflexivity|].
  split; [intros E; rewrite Hneg, E; reflexivity|].
  split; [intros E; rewrite Hneg, E; reflexivity|].
  split.
  { intros review' Hd E. rewrite !Hneg in E. apply app_inv_head in E.
    apply app_inv_tail in E.
    destruct (is_strong_negative lower review),
      (is_strong_negative lower review'); try (apply Hd; reflexivity).
    - exact (apologies_differ aspects E).
    - exact (apologies_differ aspects (eq_sym E)). }
  split.
  { intros review' sentiment E. unfold build_template_reply. rewrite E.
    reflexivity. }
  split; [intros review'; rewrite !reply_positive by reflexivity; reflexivity|].
  split; [intros review'; rewrite !reply_neutral by reflexivity; reflexivity|].
  intros E. rewrite Hneg, E. reflexivity.
Qed.

(** C5 at a severe review. *)
Lemma severity_only_in_negative_witness :
  is_strong_negative ascii_lower (lit "This is UNACCEPTABLE, the worst soup")
  = true
  /\ startswith (lit "Hi there, We" ++ [RIGHT_SINGLE_QUOTE] ++ lit "re truly sorry")
       (build_template_reply ascii_lower
          (lit "This is UNACCEPTABLE, the worst soup")
          {| label := lit "negative"; confidence := S754_zero false |}
          [lit "service"] None) = true.
Proof.
  split; [reflexivity|].
  rewrite (proj2 (proj2 (proj2 (proj2 (proj2 (proj2 (proj2 (proj2
             (severity_only_in_negative ascii_lower
                (lit "This is UNACCEPTABLE, the worst soup")
                (S754_zero false) [] None))))))))
             eq_refl).
  reflexivity.
Defined.

(** C6: a label outside "positive", "neutral" and "negative" gets the reply
    of the label "negative": the apology body and the closing
    "Sincerely, SteamNoodles Support". *)
Theorem unknown_label_falls_through (lower : str -> str) (review : str)
  (sentiment : SentimentResult) (aspects : list str)
  (customer_name : option str) :
  label sentiment <> lit "positive" ->
  label sentiment <> lit "neutral" ->
  label sentiment <> lit "negative" ->
  build_template_reply lower review sentiment aspects customer_name
  = build_template_reply lower review
      {| label := lit "negative"; confidence := confidence sentiment |}
      aspects customer_name
  /\ build_template_reply lower review sentiment aspects customer_name
     = spec_salutation customer_name
       ++ apology_body (if is_strong_negative lower review
                        then STRONG_APOLOGY else PLAIN_APOLOGY) aspects
       ++ NL ++ NL ++ lit "Sincerely, SteamNoodles Support".
Proof.
  intros Hp Hn _.
  rewrite (reply_otherwise lower review aspects customer_name sentiment Hp Hn).
  split; [|reflexivity].
  symmetry. apply reply_otherwise; simpl; intros E; vm_compute in E;
    discriminate E.
Qed.

(** C6 at the label "mixed". *)
Lemma unknown_label_falls_through_witness :
  build_template_reply ascii_lower (lit "hm")
    {| label := lit "mixed"; confidence := S754_zero false |}
    [lit "food"] (Some (lit "Bo"))
  = build_template_reply ascii_lower (lit "hm")
      {| label := lit "negative"; confidence := S754_zero false |}
      [lit "food"] (Some (lit "Bo")).
Proof.
  apply (unknown_label_falls_through ascii_lower (lit "hm")
           {| label := lit "mixed"; confidence := S754_zero false |}
           [lit "food"] (Some (lit "Bo")));
    simpl; intros E; vm_compute in E; discriminate E.
Defined.

(** C10: two sentiment results with the same label yield the same reply,
    whatever their confidences. *)
Theorem reply_ignores_confidence (lower : str -> str) (review : str)
  (aspects : list str) (customer_name : option str)
  (s1 s2 : SentimentResult) :
  label s1 = label s2 ->
  build_template_reply lower review s1 aspects customer_name
  = build_template_reply lower review s2 aspects customer_name.
Proof. intros E. unfold build_template_reply. rewrite E. reflexivity. Qed.

(** C10 at two confidences, 0 and 0.5. *)
Lemma reply_ignores_confidence_witness :
  {| label := lit "neutral"; confidence := S754_zero false |}
  <> {| label := lit "neutral"; confidence := S754_finite false 4503599627370496 (-53) |}
  /\ build_template_reply ascii_lower (lit "ok")
       {| label := lit "neutral"; confidence := S754_zero false |}
       [lit "price"] None
     = build_template_reply ascii_lower (lit "ok")
         {| label := lit "neutral"; confidence := S754_finite false 4503599627370496 (-53) |}
         [lit "price"] None.
Proof.
  split; [intros E; discriminate E|].
  apply (reply_ignores_confidence ascii_lower (lit "ok") [lit "price"] None
           {| label := lit "neutral"; confidence := S754_zero false |}
           {| label := lit "neutral"; confidence := S754_finite false 4503599627370496 (-53) |}).
  reflexivity.
Defined.

(** ** Paraphrase post-processor *)

Lemma skipn_length_app {A : Type} (l l' : list A) :
  skipn (List.length l) (l ++ l') = l'.
Proof. induction l as [|x l IH]; simpl; [reflexivity | exact IH]. Qed.

Lemma startswith_skipn (sep s : str) :
  startswith sep s = true -> s = [] ++ sep ++ skipn (List.length sep) s.
Proof.
  intros E. apply startswith_spec in E. destruct E as [post ->].
  rewrite skipn_length_app. reflexivity.
Qed.

Lemma str_partition_some (sep s before after : str) :
  str_partition sep s = Some (before, after) ->
  s = before ++ sep ++ after
  /\ forall pre post, s = pre ++ sep ++ post ->
       List.length before <= List.length pre.
Proof.
  revert before. induction s as [|c s IH]; intros before; simpl.
  - destruct (startswith sep []) eqn:E; [|discriminate].
    intros H. injection H as <- <-.
    split; [apply startswith_skipn; exact E | intros; simpl; lia].
  - destruct (startswith sep (c :: s)) eqn:E.
    + intros H. injection H as <- <-.
      split; [apply startswith_skipn; exact E | intros; simpl; lia].
    + destruct (str_partition sep s) as [[b a]|] eqn:P; [|discriminate].
      intros H. injection H as <- <-.
      destruct (IH b eq_refl) as [Hs Hleft]. split.
      * simpl. rewrite <- Hs. reflexivity.
      * intros [|c' pre] post Hpre.
        -- exfalso. simpl in Hpre.
           assert (Et : startswith sep (c :: s) = true)
             by (apply startswith_spec; exists post; exact Hpre).
           congruence.
        -- simpl in Hpre. injection Hpre as _ Hpre.
           simpl. apply le_n_S. exact (Hleft pre post Hpre).
Qed.

Lemma str_partition_none (sep s : str) :
  str_partition sep s = None -> ~ Substring sep s.
Proof.
  intros H. apply str_in_false. induction s as [|c s IH]; simpl in *.
  - destruct (startswith sep []); [discriminate | reflexivity].
  - destruct (startswith sep (c :: s)); [discriminate|].
    destruct (str_partition sep s) as [[b a]|]; [discriminate|].
    simpl. apply IH. reflexivity.
Qed.

Lemma lstrip_subset (s : str) (c : char) : In c (lstrip s) -> In c s.
Proof.
  induction s as [|x s IH]; simpl; [auto|].
  destruct (isspace x); [intros H; right; auto | auto].
Qed.

Lemma lstrip_keeps_text (s : str) :
  (exists c, In c s /\ isspace c = false) ->
  exists c, In c (lstrip s) /\ isspace c = false.
Proof.
  induction s as [|x s IH]; intros [c [Hin Hc]]; [destruct Hin|].
  simpl. destruct (isspace x) eqn:E.
  - apply IH. destruct Hin as [<-|Hin]; [congruence | eauto].
  - exists c. split; assumption.
Qed.

Lemma lstrip_head (s : str) :
  match lstrip s with
  | [] => True
  | c :: _ => isspace c = false
  end.
Proof.
  induction s as [|x s IH]; simpl; [exact I|].
  destruct (isspace x) eqn:E; [exact IH | exact E].
Qed.

Lemma strip_nonempty (s : str) :
  strip s <> [] <-> exists c, In c s /\ isspace c = false.
Proof.
  unfold strip, rstrip. split.
  - intros H. destruct (lstrip (rev (lstrip (rev s)))) as [|c l] eqn:E;
      [congruence|].
    exists c. pose proof (lstrip_head (rev (lstrip (rev s)))) as Hh.
    rewrite E in Hh. split; [|exact Hh].
    apply in_rev. apply lstrip_subset. apply in_rev.
    apply lstrip_subset. rewrite E. left. reflexivity.
  - intros [c [Hin Hc]].
    assert (H1 : exists c, In c (rev s) /\ isspace c = false)
      by (exists c; split; [apply in_rev in Hin; exact Hin | exact Hc]).
    apply lstrip_keeps_text in H1. destruct H1 as [c1 [Hin1 Hc1]].
    assert (H2 : exists c, In c (rev (lstrip (rev s))) /\ isspace c = false)
      by (exists c1; split; [apply in_rev in Hin1; exact Hin1 | exact Hc1]).
    apply lstrip_keeps_text in H2. destruct H2 as [c2 [Hin2 _]].
    intros E. rewrite E in Hin2. destruct Hin2.
Qed.

Lemma extract_paraphrase_eq (out : str) :
  extract_paraphrase out = Some (strip (after_marker out)).
Proof.
  unfold extract_paraphrase, after_marker, split1.
  destruct (str_partition PARAPHRASE_MARKER out) as [[b a]|]; reflexivity.
Qed.

Lemma get_gen_pipe_trace (T : Transformers) (w : World T) :
  exists evs, trace (snd (get_gen_pipe w)) = trace w ++ evs.
Proof.
  unfold get_gen_pipe, bind, read_gen_pipe, call_pipeline, write_gen_pipe, ret.
  destruct (_gen_pipe w) as [p|]; simpl.
  - exists []. rewrite app_nil_r. reflexivity.
  - destruct (pipeline T (trace w) (lit "text-generation") _GEN_MODEL_ID);
      simpl; eexists; reflexivity.
Qed.

Lemma get_gen_pipe_raised (T : Transformers) (w w1 : World T) :
  get_gen_pipe w = (Raised, w1) -> trace w1 <> trace w.
Proof.
  unfold get_gen_pipe, bind, read_gen_pipe, call_pipeline, write_gen_pipe, ret.
  destruct (_gen_pipe w) as [p|]; simpl; [discriminate|].
  destruct (pipeline T (trace w) (lit "text-generation") _GEN_MODEL_ID);
    simpl; [discriminate|].
  intros H. injection H as <-. simpl. intros E.
  apply (f_equal (@List.length Event)) in E. rewrite length_app in E.
  simpl in E. lia.
Qed.

Lemma maybe_paraphrase_enabled_eq (T : Transformers) (reply : str)
  (w : World T) :
  maybe_paraphrase reply true w
  = match get_gen_pipe w with
    | (Ok gen, w1) =>
        let w2 := {| _gen_pipe := _gen_pipe w1;
                     trace := trace w1
                              ++ [EvGenerate (paraphrase_prompt reply) 70] |} in
        match generate T (trace w1) gen (paraphrase_prompt reply) 70 with
        | Some out => (Ok (strip (after_marker out)), w2)
        | None => (Raised, w2)
        end
    | (Raised, w1) => (Raised, w1)
    end.
Proof.
  unfold maybe_paraphrase, bind, call_generate.
  change (negb true) with false. cbv beta iota.
  destruct (get_gen_pipe w) as [[p|] w1]; [|reflexivity].
  destruct (generate T (trace w1) p (paraphrase_prompt reply) 70) as [out|];
    [|reflexivity].
  cbv beta iota zeta. rewrite extract_paraphrase_eq. reflexivity.
Qed.

(** With generation enabled the library is always asked for something. *)
Lemma maybe_paraphrase_enabled_calls (T : Transformers) (reply : str)
  (w : World T) :
  trace (snd (maybe_paraphrase reply true w)) <> trace w.
Proof.
  rewrite maybe_paraphrase_enabled_eq.
  destruct (get_gen_pipe w) as [[p|] w1] eqn:G.
  - destruct (get_gen_pipe_trace T w) as [evs Hevs]. rewrite G in Hevs.
    simpl in Hevs.
    assert (Hlen : forall ev, trace w1 ++ [ev] <> trace w).
    { intros ev E. rewrite Hevs in E.
      apply (f_equal (@List.length Event)) in E.
      rewrite !length_app in E. simpl in E. lia. }
    destruct (generate T (trace w1) p (paraphrase_prompt reply) 70);
      simpl; apply Hlen.
  - simpl. exact (get_gen_pipe_raised T w w1 G).
Qed.

(** C8: with generation disabled [maybe_paraphrase] returns the reply it was
    given and leaves the module state as it was: no pipeline is built, the
    generator is not called.  (With generation enabled the record of calls
    always grows.) *)
Theorem maybe_paraphrase_disabled (T : Transformers) (reply : str)
  (w : World T) :
  maybe_paraphrase reply false w = (Ok reply, w)
  /\ trace (snd (maybe_paraphrase reply false w)) = trace w
  /\ _gen_pipe (snd (maybe_paraphrase reply false w)) = _gen_pipe w
  /\ trace (snd (maybe_paraphrase reply true w)) <> trace w.
Proof.
  split; [reflexivity|]. split; [reflexivity|]. split; [reflexivity|].
  apply maybe_paraphrase_enabled_calls.
Qed.

(** C9, as the code has it: whatever text the generator returns, the
    extraction does not raise and returns, stripped of surrounding
    whitespace, the text after the leftmost "Paraphrase:" marker, or the
    whole text when there is no marker; the result is non-empty exactly when
    that text has a character that is not whitespace.  When the pipeline is
    obtained and the generator returns, [maybe_paraphrase] returns that
    result. *)
Theorem paraphrase_extraction (T : Transformers) (reply : str) (w : World T)
  (out : str) :
  (exists tail,
      extract_paraphrase out = Some (strip tail)
      /\ ((~ Substring PARAPHRASE_MARKER out /\ tail = out)
          \/ exists before,
               out = before ++ PARAPHRASE_MARKER ++ tail
               /\ forall pre post,
                    out = pre ++ PARAPHRASE_MARKER ++ post ->
                    List.length before <= List.length pre)
      /\ (strip tail <> [] <-> exists c, In c tail /\ isspace c = false))
  /\ (forall p w1,
        get_gen_pipe w = (Ok p, w1) ->
        generate T (trace w1) p (paraphrase_prompt reply) 70 = Some out ->
        exists r w2,
          extract_paraphrase out = Some r
          /\ maybe_paraphrase reply true w = (Ok r, w2)).
Proof.
  split.
  - exists (after_marker out). split; [apply extract_paraphrase_eq|].
    split; [|apply strip_nonempty].
    unfold after_marker.
    destruct (str_partition PARAPHRASE_MARKER out) as [[b a]|] eqn:P.
    + right. exists b. apply str_partition_some. exact P.
    + left. split; [apply str_partition_none; exact P | reflexivity].
  - intros p w1 G Hgen.
    rewrite extract_paraphrase_eq, maybe_paraphrase_enabled_eq, G, Hgen.
    eexists. eexists. split; reflexivity.
Qed.

(** C9 at a generator that echoes the prompt and completes it. *)
Lemma paraphrase_extraction_witness :
  fst (maybe_paraphrase
         (T := stub_transformers
                 (paraphrase_prompt (lit "Hi there, thanks.")
                  ++ lit " Thank you for your note. "))
         (lit "Hi there, thanks.") true (fresh_world _))
  = Ok (lit "Thank you for your note.").
Proof.
  destruct (proj2 (paraphrase_extraction
                     (stub_transformers
                        (paraphrase_prompt (lit "Hi there, thanks.")
                         ++ lit " Thank you for your note. "))
                     (lit "Hi there, thanks.") (fresh_world _)
                     (paraphrase_prompt (lit "Hi there, thanks.")
                      ++ lit " Thank you for your note. "))
             tt _ eq_refl eq_refl) as [r [w2 [Hr Hm]]].
  rewrite Hm. simpl. f_equal.
  apply (f_equal (fun o => match o with Some x => x | None => r end)) in Hr.
  rewrite <- Hr. reflexivity.
Defined.

(** C9 as stated fails: a generated text of whitespace only has no marker
    and is extracted to the empty string, and so is a text that ends with the
    marker, as when the generator echoes the prompt and adds nothing. *)
Lemma paraphrase_empty_counterexample :
  (~ Substring PARAPHRASE_MARKER (lit "  ")
   /\ extract_paraphrase (lit "  ") = Some []
   /\ maybe_paraphrase (T := stub_transformers (lit "  "))
        (lit "Hi there, thanks.") true (fresh_world _)
      = (Ok [],
         Build_World (stub_transformers (lit "  ")) (Some tt)
           [EvPipeline (lit "text-generation") _GEN_MODEL_ID;
            EvGenerate (paraphrase_prompt (lit "Hi there, thanks.")) 70]))
  /\ extract_paraphrase (paraphrase_prompt (lit "Hi there, thanks.")) = Some []
  /\ ~ (forall out r, extract_paraphrase out = Some r -> r <> []).
Proof.
  split; [|split].
  - split; [apply str_in_false; reflexivity|]. split; reflexivity.
  - reflexivity.
  - intros H. exact (H (lit "  ") [] eq_refl eq_refl).
Qed.

(** * Further properties *)

(** ** Aspect detector: size, order and limits *)

Lemma matched_categories_hits (text_l : str) :
  List.map fst (collect_hits text_l ASPECT_KEYWORDS) = matched_categories text_l.
Proof.
  rewrite collect_hits_filter. unfold scored, matched_categories, ASPECT_NAMES.
  rewrite !filter_map_swap, map_map. simpl fst.
  f_equal. apply filter_ext_in. intros [a kws] Hin. simpl.
  rewrite (aspect_score_keywords text_l _ _ Hin). apply Z.gtb_ltb.
Qed.

Lemma ranked_hits_length (text_l : str) :
  List.length (ranked_hits text_l) = List.length (matched_categories text_l).
Proof.
  rewrite <- (Permutation_length (ranked_hits_perm text_l)).
  rewrite <- matched_categories_hits, length_map. reflexivity.
Qed.

Lemma ranked_hits_names_perm (text_l : str) :
  Permutation (List.map fst (ranked_hits text_l)) (matched_categories text_l).
Proof.
  rewrite <- matched_categories_hits. apply Permutation_map.
  apply Permutation_sym. apply ranked_hits_perm.
Qed.

Lemma matched_categories_bound (text_l : str) :
  List.length (matched_categories text_l) <= 5.
Proof.
  unfold matched_categories.
  exact (filter_length_le (fun a => (0 <? aspect_score text_l a)%Z) ASPECT_NAMES).
Qed.

(** With room for at least one category, the answer is the sentinel exactly
    when the ranking is empty. *)
Lemma detect_aspects_positive (lower : str -> str) (text : str) (k : Z) :
  (1 <= k)%Z ->
  detect_aspects lower text k
  = match ranked_hits (lower text) with
    | [] => [NO_SPECIFIC_ASPECT]
    | _ :: _ => List.map fst (firstn (Z.to_nat k) (ranked_hits (lower text)))
    end.
Proof.
  intros Hk. rewrite detect_aspects_unfold. unfold slice_to.
  destruct (Z.ltb_spec k 0) as [Hlt|_]; [lia|].
  destruct (Z.to_nat k) as [|n] eqn:E; [lia|].
  destruct (ranked_hits (lower text)) as [|p l]; reflexivity.
Qed.

Lemma firstn_le_app {A : Type} (n m : nat) (l : list A) :
  n <= m -> firstn m l = firstn n l ++ firstn (m - n) (skipn n l).
Proof.
  revert m l. induction n as [|n IH]; intros m l Hnm.
  - simpl. rewrite Nat.sub_0_r. reflexivity.
  - destruct m as [|m]; [lia|]. destruct l as [|x l]; simpl.
    + rewrite firstn_nil. reflexivity.
    + rewrite (IH m l) by lia. reflexivity.
Qed.

Lemma StronglySorted_NoDup {A : Type} (R : A -> A -> Prop) (l : list A) :
  (forall x, ~ R x x) -> StronglySorted R l -> NoDup l.
Proof.
  intros Hirr Hs. induction Hs as [|a l Hs IH Ha]; constructor; [|exact IH].
  intros Hin. rewrite Forall_forall in Ha. exact (Hirr a (Ha a Hin)).
Qed.

Lemma ranks_before_irrefl (text_l a : str) : ~ ranks_before text_l a a.
Proof. unfold ranks_before. intros [H|[_ H]]; lia. Qed.

(** X1: no category is returned twice. *)
Theorem detect_aspects_nodup (lower : str -> str) (text : str) (max_aspects : Z) :
  NoDup (detect_aspects lower text max_aspects).
Proof.
  destruct (detect_aspects_prefix lower text max_aspects) as [E|[n E]]; rewrite E.
  - constructor; [intros [] | constructor].
  - apply StronglySorted_NoDup with (R := ranks_before (lower text)).
    + apply ranks_before_irrefl.
    + apply prefix_sorted.
Qed.

(** X2: for [max_aspects] of at least 1 the number of aspects returned is
    the smaller of [max_aspects] and the number of categories with a hit,
    and 1 when there is none, which is exactly when the sentinel is
    returned; when [max_aspects] covers all the categories with a hit, all
    of them are returned.  There are never more than 5. *)
Theorem detect_aspects_exact_length (lower : str -> str) (text : str)
  (max_aspects : Z) :
  (1 <= max_aspects)%Z ->
  List.length (detect_aspects lower text max_aspects)
  = Nat.max 1 (Nat.min (Z.to_nat max_aspects)
                 (List.length (matched_categories (lower text))))
  /\ (detect_aspects lower text max_aspects = [NO_SPECIFIC_ASPECT]
      <-> matched_categories (lower text) = [])
  /\ (matched_categories (lower text) <> [] ->
      (Z.of_nat (List.length (matched_categories (lower text))) <= max_aspects)%Z ->
      Permutation (detect_aspects lower text max_aspects)
        (matched_categories (lower text)))
  /\ List.length (detect_aspects lower text max_aspects) <= 5.
Proof.
  intros Hk. rewrite (detect_aspects_positive lower text max_aspects Hk).
  pose proof (ranked_hits_length (lower text)) as Hlen.
  pose proof (matched_categories_bound (lower text)) as Hb.
  pose proof (ranked_hits_names_perm (lower text)) as Hperm.
  destruct (ranked_hits (lower text)) as [|p l] eqn:E.
  - simpl in Hlen.
    destruct (matched_categories (lower text)) as [|c m]; [|discriminate].
    simpl. rewrite Nat.min_0_r.
    split; [reflexivity|]. split; [tauto|]. split; [congruence | lia].
  - rewrite <- Hlen. rewrite length_map, length_firstn.
    assert (Hn : 1 <= Z.to_nat max_aspects) by lia.
    simpl List.length in *.
    split; [lia|]. split; [|split].
    + split.
      * intros H. exfalso.
        destruct (Z.to_nat max_aspects) as [|n]; [lia|].
        simpl in H. injection H as H _.
        apply no_specific_aspect_not_a_name.
        assert (Hin : In (fst p, snd p) (ranked_hits (lower text)))
          by (rewrite E; left; destruct p; reflexivity).
        apply in_ranked_hits in Hin. rewrite <- H. apply Hin.
      * intros H. rewrite H in Hlen. discriminate Hlen.
    + intros _ Hall. rewrite firstn_all2 by (simpl; lia). exact Hperm.
    + lia.
Qed.

(** X2 at the default [max_aspects] and a text with three categories. *)
Lemma detect_aspects_exact_length_witness :
  (1 <= DEFAULT_MAX_ASPECTS)%Z
  /\ List.length
       (detect_aspects ascii_lower (lit "slow staff, cold soup, high price")
          DEFAULT_MAX_ASPECTS)
     = Nat.max 1 (Nat.min 2 3).
Proof.
  assert (H : (1 <= DEFAULT_MAX_ASPECTS)%Z) by (unfold DEFAULT_MAX_ASPECTS; lia).
  split; [exact H|].
  exact (proj1 (detect_aspects_exact_length ascii_lower
                  (lit "slow staff, cold soup, high price")
                  DEFAULT_MAX_ASPECTS H)).
Defined.

(** X3: asking for more aspects only appends to the answer. *)
Theorem detect_aspects_grows (lower : str -> str) (text : str) (k k' : Z) :
  (1 <= k)%Z -> (k <= k')%Z ->
  exists more,
    detect_aspects lower text k' = detect_aspects lower text k ++ more.
Proof.
  intros Hk Hkk'.
  rewrite (detect_aspects_positive lower text k Hk).
  rewrite (detect_aspects_positive lower text k') by lia.
  destruct (ranked_hits (lower text)) as [|p l].
  - exists []. reflexivity.
  - rewrite (firstn_le_app (Z.to_nat k) (Z.to_nat k') (p :: l)) by lia.
    rewrite map_app. eexists. reflexivity.
Qed.

(** X3 between one aspect and three. *)
Lemma detect_aspects_grows_witness :
  exists more,
    detect_aspects ascii_lower (lit "slow staff, cold soup, high price") 3
    = detect_aspects ascii_lower (lit "slow staff, cold soup, high price") 1
      ++ more.
Proof.
  apply (detect_aspects_grows ascii_lower
           (lit "slow staff, cold soup, high price") 1 3); lia.
Defined.

(** X4: a [max_aspects] of 0 always gives the sentinel, whatever the text
    holds; a negative one drops that many categories from the end of the
    ranking, and gives the sentinel when none is left, which is always so
    from -5 down. *)
Theorem detect_aspects_nonpositive (lower : str -> str) (text : str)
  (max_aspects : Z) :
  (max_aspects <= 0)%Z ->
  ((Z.of_nat (List.length (matched_categories (lower text))) <= - max_aspects)%Z ->
   detect_aspects lower text max_aspects = [NO_SPECIFIC_ASPECT])
  /\ ((- max_aspects < Z.of_nat (List.length (matched_categories (lower text))))%Z ->
      (max_aspects < 0)%Z ->
      detect_aspects lower text max_aspects
      = List.map fst
          (firstn (List.length (matched_categories (lower text))
                   - Z.to_nat (- max_aspects))
             (ranked_hits (lower text))))
  /\ (max_aspects = 0%Z ->
      detect_aspects lower text max_aspects = [NO_SPECIFIC_ASPECT])
  /\ ((max_aspects <= -5)%Z ->
      detect_aspects lower text max_aspects = [NO_SPECIFIC_ASPECT]).
Proof.
  intros Hk.
  pose proof (ranked_hits_length (lower text)) as Hlen.
  pose proof (matched_categories_bound (lower text)) as Hb.
  assert (Hempty : forall n, n = 0 ->
            match List.map fst (firstn n (ranked_hits (lower text))) with
            | [] => [NO_SPECIFIC_ASPECT]
            | a :: l => a :: l
            end = [NO_SPECIFIC_ASPECT]) by (intros n ->; reflexivity).
  assert (Hsmall :
            (Z.of_nat (List.length (matched_categories (lower text)))
             <= - max_aspects)%Z ->
            detect_aspects lower text max_aspects = [NO_SPECIFIC_ASPECT]).
  { intros Hle. rewrite detect_aspects_unfold. unfold slice_to.
    destruct (Z.ltb_spec max_aspects 0) as [Hlt|Hge]; apply Hempty; lia. }
  split; [exact Hsmall|]. split; [|split].
  - intros Hgt Hneg. rewrite detect_aspects_unfold. unfold slice_to.
    destruct (Z.ltb_spec max_aspects 0) as [_|Hge]; [|lia].
    replace (Z.to_nat (Z.max 0 (Z.of_nat (List.length (ranked_hits (lower text)))
                                + max_aspects)))
      with (List.length (matched_categories (lower text))
            - Z.to_nat (- max_aspects)) by lia.
    destruct (ranked_hits (lower text)) as [|p l] eqn:E;
      [simpl in Hlen; lia|].
    destruct (List.length (matched_categories (lower text))
              - Z.to_nat (- max_aspects)) as [|n] eqn:En; [lia|].
    reflexivity.
  - intros ->. rewrite detect_aspects_unfold. reflexivity.
  - intros H5. apply Hsmall. lia.
Qed.

(** X4 at 0 and a text with keywords. *)
Lemma detect_aspects_nonpositive_witness :
  (0 <= 0)%Z
  /\ detect_aspects ascii_lower (lit "slow staff, cold soup, high price") 0
     = [NO_SPECIFIC_ASPECT].
Proof.
  split; [lia|].
  apply (proj1 (proj2 (proj2 (detect_aspects_nonpositive ascii_lower
                  (lit "slow staff, cold soup, high price") 0 (Z.le_refl 0))))).
  reflexivity.
Defined.

(** ** Keyword matching is by substring *)

Lemma Substring_trans (a b c : str) :
  Substring a b -> Substring b c -> Substring a c.
Proof.
  intros [p1 [q1 ->]] [p2 [q2 ->]]. exists (p2 ++ p1), (q1 ++ q2).
  rewrite <- !app_assoc. reflexivity.
Qed.

Lemma filter_length_mono {A : Type} (f g : A -> bool) (l : list A) :
  (forall x, In x l -> f x = true -> g x = true) ->
  List.length (filter f l) <= List.length (filter g l).
Proof.
  induction l as [|x l IH]; intros H; simpl; [lia|].
  assert (IH' : List.length (filter f l) <= List.length (filter g l))
    by (apply IH; intros y Hy; apply H; right; exact Hy).
  destruct (f x) eqn:Ef.
  - rewrite (H x (or_introl eq_refl) Ef). simpl. lia.
  - destruct (g x); simpl; lia.
Qed.

Lemma keyword_score_mono (l1 l2 : str) (kws : list str) :
  Substring l1 l2 -> (keyword_score l1 kws <= keyword_score l2 kws)%Z.
Proof.
  intros Hsub. rewrite !keyword_score_count. apply inj_le.
  apply filter_length_mono. intros kw _ H.
  apply str_in_spec. apply str_in_spec in H.
  exact (Substring_trans _ _ _ H Hsub).
Qed.

Lemma aspect_score_mono (l1 l2 a : str) :
  Substring l1 l2 -> (aspect_score l1 a <= aspect_score l2 a)%Z.
Proof.
  intros Hsub. unfold aspect_score.
  destruct (find (fun item => str_eqb (fst item) a) ASPECT_KEYWORDS)
    as [[b kws]|]; [apply keyword_score_mono; exact Hsub | lia].
Qed.

(** X5: text around a text never loses a hit: when the lowercased [t1]
    occurs in the lowercased [t2], every category scores at least as much on
    [t2], the categories with a hit on [t1] have one on [t2], and strong
    negative language in [t1] is found in [t2]. *)
Theorem hits_survive_context (lower : str -> str) (t1 t2 : str) :
  Substring (lower t1) (lower t2) ->
  (forall a, (aspect_score (lower t1) a <= aspect_score (lower t2) a)%Z)
  /\ (forall a, In a (matched_categories (lower t1)) ->
                In a (matched_categories (lower t2)))
  /\ (is_strong_negative lower t1 = true -> is_strong_negative lower t2 = true).
Proof.
  intros Hsub. split; [intros a; apply aspect_score_mono; exact Hsub|]. split.
  - intros a. unfold matched_categories. rewrite !filter_In.
    intros [Hin Hpos]. split; [exact Hin|].
    apply Z.ltb_lt. apply Z.ltb_lt in Hpos.
    pose proof (aspect_score_mono _ _ a Hsub). lia.
  - unfold is_strong_negative. rewrite !existsb_exists.
    intros [term [Hin Hs]]. exists term. split; [exact Hin|].
    apply str_in_spec. apply str_in_spec in Hs.
    exact (Substring_trans _ _ _ Hs Hsub).
Qed.

(** X5 at a short text inside a longer one. *)
Lemma hits_survive_context_witness :
  Substring (ascii_lower (lit "Awful soup"))
    (ascii_lower (lit "Awful soup and slow staff"))
  /\ is_strong_negative ascii_lower (lit "Awful soup and slow staff") = true.
Proof.
  assert (H : Substring (ascii_lower (lit "Awful soup"))
                (ascii_lower (lit "Awful soup and slow staff")))
    by (apply str_in_spec; reflexivity).
  split; [exact H|].
  apply (proj2 (proj2 (hits_survive_context ascii_lower (lit "Awful soup")
                         (lit "Awful soup and slow staff") H))).
  reflexivity.
Defined.

(** X6: on ASCII text only the letters matter, not their case: two texts
    that differ in case alone get the same aspects, the same severity and
    the same reply. *)
Theorem letter_case_is_ignored (lower : str -> str) (t1 t2 : str) :
  (forall s, is_ascii s -> lower s = ascii_lower s) ->
  is_ascii t1 -> is_ascii t2 -> ascii_lower t1 = ascii_lower t2 ->
  (forall max_aspects,
      detect_aspects lower t1 max_aspects = detect_aspects lower t2 max_aspects)
  /\ is_strong_negative lower t1 = is_strong_negative lower t2
  /\ (forall sentiment aspects customer_name,
        build_template_reply lower t1 sentiment aspects customer_name
        = build_template_reply lower t2 sentiment aspects customer_name).
Proof.
  intros Hlower H1 H2 E.
  assert (El : lower t1 = lower t2) by (rewrite !Hlower by assumption; exact E).
  assert (Es : is_strong_negative lower t1 = is_strong_negative lower t2)
    by (unfold is_strong_negative; rewrite El; reflexivity).
  split; [|split].
  - intros k. unfold detect_aspects. rewrite El. reflexivity.
  - exact Es.
  - intros s a n. unfold build_template_reply. rewrite Es. reflexivity.
Qed.

(** X6 at a shouted review. *)
Lemma letter_case_is_ignored_witness :
  detect_aspects ascii_lower (lit "TERRIBLE SERVICE") 2
  = detect_aspects ascii_lower (lit "terrible service") 2.
Proof.
  apply (proj1 (letter_case_is_ignored ascii_lower (lit "TERRIBLE SERVICE")
                  (lit "terrible service")
                  (fun s _ => eq_refl)
                  (is_ascii_check (lit "TERRIBLE SERVICE") eq_refl)
                  (is_ascii_check (lit "terrible service") eq_refl)
                  eq_refl)).
Defined.

(** X7: the keyword "price" occurs in the keyword "overpriced", so a text
    with "overpriced" counts two hits for the price category at least. *)
Theorem overpriced_counts_twice (lower : str -> str) (text : str) :
  Substring (lit "overpriced") (lower text) ->
  (2 <= aspect_score (lower text) (lit "price"))%Z.
Proof.
  intros H.
  assert (Hp : Substring (lit "price") (lower text))
    by (apply (Substring_trans _ (lit "overpriced") _);
        [apply str_in_spec; reflexivity | exact H]).
  apply str_in_spec in H, Hp.
  change (aspect_score (lower text) (lit "price"))
    with (keyword_score (lower text)
            (List.map lit ["price"; "cost"; "expensive"; "cheap"; "value";
                           "overpriced"; "bill"]%string)).
  rewrite keyword_score_count. cbn [List.map filter].
  rewrite H, Hp.
  repeat match goal with
         | |- context [if str_in ?kw ?t then _ else _] => destruct (str_in kw t)
         end; simpl List.length; lia.
Qed.

(** X7 at a text. *)
Lemma overpriced_counts_twice_witness :
  (2 <= aspect_score (ascii_lower (lit "Overpriced noodles")) (lit "price"))%Z.
Proof.
  apply (overpriced_counts_twice ascii_lower (lit "Overpriced noodles")).
  apply str_in_spec. reflexivity.
Defined.

(** ** Reply template engine: what the reply holds *)

Lemma in_join (sep : str) (parts : list str) (a : str) :
  In a parts -> Substring a (join sep parts).
Proof.
  induction parts as [|p rest IH]; intros Hin; [destruct Hin|].
  destruct rest as [|q rest].
  - destruct Hin as [<-|[]]. exists [], []. simpl. rewrite app_nil_r. reflexivity.
  - change (join sep (p :: q :: rest)) with (p ++ sep ++ join sep (q :: rest)).
    destruct Hin as [<-|Hin].
    + exists [], (sep ++ join sep (q :: rest)). reflexivity.
    + do 2 apply Substring_app_r. apply IH. exact Hin.
Qed.

Lemma reply_parts (lower : str -> str) (review : str)
  (sentiment : SentimentResult) (aspects : list str)
  (customer_name : option str) :
  exists body closing,
    build_template_reply lower review sentiment aspects customer_name
    = spec_salutation customer_name ++ body ++ NL ++ NL ++ closing
    /\ Substring (join (lit ", ") aspects) body.
Proof.
  destruct (str_eqb (label sentiment) (lit "positive")) eqn:Ep.
  - apply str_eqb_eq in Ep. exists (positive_body aspects), POSITIVE_CLOSING.
    split; [apply reply_positive; exact Ep | apply Substring_mid].
  - apply str_eqb_neq in Ep.
    destruct (str_eqb (label sentiment) (lit "neutral")) eqn:En.
    + apply str_eqb_eq in En. exists (neutral_body aspects), NEUTRAL_CLOSING.
      split; [apply reply_neutral; exact En | apply Substring_mid].
    + apply str_eqb_neq in En.
      exists (apology_body (if is_strong_negative lower review
                            then STRONG_APOLOGY else PLAIN_APOLOGY) aspects),
        NEGATIVE_CLOSING.
      split; [apply reply_otherwise; assumption|].
      unfold apology_body. do 2 apply Substring_app_r. apply Substring_mid.
Qed.

(** X8: whatever the label, every aspect handed to [build_template_reply]
    is named in the reply, and so is the customer's name when one is given;
    the reply always starts with "Hi ". *)
Theorem reply_mentions_inputs (lower : str -> str) (review : str)
  (sentiment : SentimentResult) (aspects : list str)
  (customer_name : option str) :
  (forall a, In a aspects ->
     Substring a
       (build_template_reply lower review sentiment aspects customer_name))
  /\ (forall name, customer_name = Some name ->
        Substring name
          (build_template_reply lower review sentiment aspects customer_name))
  /\ startswith (lit "Hi ")
       (build_template_reply lower review sentiment aspects customer_name)
     = true.
Proof.
  destruct (reply_parts lower review sentiment aspects customer_name)
    as [body [closing [E Hbody]]].
  rewrite E. split; [|split].
  - intros a Ha. apply Substring_app_r. apply Substring_app_l.
    exact (Substring_trans _ _ _ (in_join (lit ", ") aspects a Ha) Hbody).
  - intros name ->. apply Substring_app_l.
    destruct name as [|c name]; [exists [], (spec_salutation (Some [])); reflexivity|].
    unfold spec_salutation. apply Substring_mid.
  - destruct customer_name as [[|c name]|]; reflexivity.
Qed.

(** X8 at two aspects and a name. *)
Lemma reply_mentions_inputs_witness :
  Substring (lit "service")
    (build_template_reply ascii_lower (lit "slow")
       {| label := lit "neutral"; confidence := S754_zero false |}
       [lit "food"; lit "service"] (Some (lit "Ann")))
  /\ Substring (lit "Ann")
       (build_template_reply ascii_lower (lit "slow")
          {| label := lit "neutral"; confidence := S754_zero false |}
          [lit "food"; lit "service"] (Some (lit "Ann"))).
Proof.
  split.
  - apply (proj1 (reply_mentions_inputs ascii_lower (lit "slow")
                    {| label := lit "neutral"; confidence := S754_zero false |}
                    [lit "food"; lit "service"] (Some (lit "Ann")))).
    right. left. reflexivity.
  - apply (proj1 (proj2 (reply_mentions_inputs ascii_lower (lit "slow")
                    {| label := lit "neutral"; confidence := S754_zero false |}
                    [lit "food"; lit "service"] (Some (lit "Ann"))))).
    reflexivity.
Defined.

Lemma aspect_names_nonempty (a : str) : In a ASPECT_NAMES -> a <> [].
Proof.
  unfold ASPECT_NAMES, ASPECT_KEYWORDS. cbn [List.map fst In]. intros H.
  repeat (destruct H as [H|H]; [subst a; discriminate|]). destruct H.
Qed.

(** X9: under the default [max_aspects] the aspect phrase put into the reply
    is never empty: it is the sentinel when no category has a hit, the one
    category when exactly one has, and otherwise the two best ranked
    categories, the better first, separated by ", ". *)
Theorem default_aspect_phrase (lower : str -> str) (text : str) :
  join (lit ", ") (detect_aspects lower text DEFAULT_MAX_ASPECTS) <> []
  /\ ((matched_categories (lower text) = []
       /\ join (lit ", ") (detect_aspects lower text DEFAULT_MAX_ASPECTS)
          = lit "no specific aspect")
      \/ (exists a,
            matched_categories (lower text) = [a]
            /\ join (lit ", ") (detect_aspects lower text DEFAULT_MAX_ASPECTS) = a)
      \/ (exists a b,
            2 <= List.length (matched_categories (lower text))
            /\ In a (matched_categories (lower text))
            /\ In b (matched_categories (lower text))
            /\ ranks_before (lower text) a b
            /\ (forall c, In c (matched_categories (lower text)) ->
                  c = a \/ c = b \/ ranks_before (lower text) b c)
            /\ join (lit ", ") (detect_aspects lower text DEFAULT_MAX_ASPECTS)
               = a ++ lit ", " ++ b)).
Proof.
  assert (Hk : (1 <= DEFAULT_MAX_ASPECTS)%Z) by (unfold DEFAULT_MAX_ASPECTS; lia).
  rewrite (detect_aspects_positive lower text DEFAULT_MAX_ASPECTS Hk).
  pose proof (ranked_hits_length (lower text)) as Hlen.
  pose proof (ranked_hits_names_perm (lower text)) as Hperm.
  pose proof (ranked_hits_sorted (lower text)) as Hs.
  assert (Hname : forall p, In p (ranked_hits (lower text)) -> fst p <> []).
  { intros [a s] Hin. apply in_ranked_hits in Hin.
    apply aspect_names_nonempty. apply Hin. }
  destruct (ranked_hits (lower text)) as [|p [|q l]] eqn:E.
  - simpl in Hlen.
    destruct (matched_categories (lower text)); [|discriminate].
    split; [discriminate | left; split; reflexivity].
  - simpl in Hperm. apply Permutation_length_1_inv in Hperm.
    change (join (lit ", ") (List.map fst (firstn (Z.to_nat DEFAULT_MAX_ASPECTS) [p])))
      with (fst p).
    split; [apply Hname; left; reflexivity|].
    right. left. exists (fst p). split; [exact Hperm | reflexivity].
  - change (join (lit ", ")
              (List.map fst (firstn (Z.to_nat DEFAULT_MAX_ASPECTS) (p :: q :: l))))
      with (fst p ++ lit ", " ++ fst q).
    split.
    { intros H. apply app_eq_nil in H. destruct H as [H _].
      exact (Hname p (or_introl eq_refl) H). }
    right. right. exists (fst p), (fst q).
    apply StronglySorted_inv in Hs. destruct Hs as [Hs Hp].
    apply StronglySorted_inv in Hs. destruct Hs as [_ Hq].
    rewrite Forall_forall in Hp, Hq.
    split; [rewrite <- Hlen; simpl; lia|].
    split; [apply (Permutation_in _ Hperm); left; reflexivity|].
    split; [apply (Permutation_in _ Hperm); right; left; reflexivity|].
    split; [apply Hp; left; reflexivity|].
    split; [|reflexivity].
    intros c Hc. apply (Permutation_in _ (Permutation_sym Hperm)) in Hc.
    simpl in Hc. destruct Hc as [<-|[<-|Hc]]; [auto | auto |].
    right. right. apply in_map_iff in Hc. destruct Hc as [x [<- Hx]].
    apply Hq. exact Hx.
Qed.

(** X9 at a review of one category. *)
Lemma default_aspect_phrase_witness :
  join (lit ", ") (detect_aspects ascii_lower (lit "Cold soup") DEFAULT_MAX_ASPECTS)
  <> [].
Proof.
  exact (proj1 (default_aspect_phrase ascii_lower (lit "Cold soup"))).
Defined.

(** ** Paraphrase post-processor: the pipeline handle and the calls *)

(** X10: [get_gen_pipe] builds the pipeline once: a call that succeeds
    leaves the handle in [_gen_pipe], having asked the library for a
    "text-generation" pipeline of "distilgpt2" only if none was there, and a
    second call returns the same handle and asks the library nothing; a call
    that raises leaves [_gen_pipe] empty. *)
Theorem get_gen_pipe_once (T : Transformers) (w : World T) :
  (forall p w1,
      get_gen_pipe w = (Ok p, w1) ->
      _gen_pipe w1 = Some p
      /\ get_gen_pipe w1 = (Ok p, w1)
      /\ ((_gen_pipe w = Some p /\ w1 = w)
          \/ (_gen_pipe w = None
              /\ trace w1
                 = trace w ++ [EvPipeline (lit "text-generation")
                                 (lit "distilgpt2")])))
  /\ (forall w1,
        get_gen_pipe w = (Raised, w1) ->
        _gen_pipe w = None /\ _gen_pipe w1 = None
        /\ trace w1
           = trace w ++ [EvPipeline (lit "text-generation") (lit "distilgpt2")]).
Proof.
  unfold get_gen_pipe, bind, read_gen_pipe, call_pipeline, write_gen_pipe, ret.
  destruct (_gen_pipe w) as [q|] eqn:G; simpl.
  - split; [|intros w1 H; discriminate H].
    intros p w1 H. injection H as <- <-. rewrite G.
    split; [reflexivity|]. split; [reflexivity | left; split; reflexivity].
  - destruct (pipeline T (trace w) (lit "text-generation") _GEN_MODEL_ID)
      as [q|] eqn:Ep; simpl.
    + split; [|intros w1 H; discriminate H].
      intros p w1 H. injection H as <- <-. simpl.
      split; [reflexivity|]. split; [reflexivity | right; split; reflexivity].
    + split; [intros p w1 H; discriminate H|].
      intros w1 H. injection H as <-. simpl. rewrite G. repeat split.
Qed.

(** X10 at a fresh process. *)
Lemma get_gen_pipe_once_witness :
  get_gen_pipe
    (snd (get_gen_pipe (fresh_world (stub_transformers (lit "ok")))))
  = (Ok tt, snd (get_gen_pipe (fresh_world (stub_transformers (lit "ok"))))).
Proof.
  exact (proj1 (proj2 (proj1 (get_gen_pipe_once _
                                (fresh_world (stub_transformers (lit "ok"))))
                         tt _ eq_refl))).
Defined.

(** X11: what [maybe_paraphrase] asks of the library when generation is
    enabled.  With a handle in [_gen_pipe]: one run of the generator, on the
    prompt built from the reply, with 70 new tokens at most.  Without one:
    the pipeline is built first, and if that raises the generator is not
    run; once built the handle stays in [_gen_pipe], also when the generator
    raises. *)
Theorem maybe_paraphrase_calls (T : Transformers) (reply : str) (w : World T) :
  (forall p,
      _gen_pipe w = Some p ->
      trace (snd (maybe_paraphrase reply true w))
      = trace w ++ [EvGenerate (paraphrase_prompt reply) 70]
      /\ _gen_pipe (snd (maybe_paraphrase reply true w)) = Some p)
  /\ (_gen_pipe w = None ->
      pipeline T (trace w) (lit "text-generation") _GEN_MODEL_ID = None ->
      fst (maybe_paraphrase reply true w) = Raised
      /\ trace (snd (maybe_paraphrase reply true w))
         = trace w ++ [EvPipeline (lit "text-generation") _GEN_MODEL_ID]
      /\ _gen_pipe (snd (maybe_paraphrase reply true w)) = None)
  /\ (forall p,
        _gen_pipe w = None ->
        pipeline T (trace w) (lit "text-generation") _GEN_MODEL_ID = Some p ->
        trace (snd (maybe_paraphrase reply true w))
        = trace w ++ [EvPipeline (lit "text-generation") _GEN_MODEL_ID;
                      EvGenerate (paraphrase_prompt reply) 70]
        /\ _gen_pipe (snd (maybe_paraphrase reply true w)) = Some p).
Proof.
  rewrite maybe_paraphrase_enabled_eq.
  unfold get_gen_pipe, bind, read_gen_pipe, call_pipeline, write_gen_pipe, ret.
  split; [|split].
  - intros p G. rewrite G. simpl.
    destruct (generate T (trace w) p (paraphrase_prompt reply) 70);
      simpl; rewrite G; split; reflexivity.
  - intros G Ep. rewrite G, Ep. simpl. rewrite G. repeat split.
  - intros p G Ep. rewrite G, Ep. simpl.
    destruct (generate T (trace w ++ [EvPipeline (lit "text-generation")
                                        _GEN_MODEL_ID])
                p (paraphrase_prompt reply) 70);
      simpl; rewrite <- app_assoc; split; reflexivity.
Qed.

(** X11 at a fresh process. *)
Lemma maybe_paraphrase_calls_witness :
  trace (snd (maybe_paraphrase (T := stub_transformers (lit "ok"))
                (lit "Hi") true (fresh_world _)))
  = [EvPipeline (lit "text-generation") _GEN_MODEL_ID;
     EvGenerate (paraphrase_prompt (lit "Hi")) 70].
Proof.
  exact (proj1 (proj2 (proj2 (maybe_paraphrase_calls _ (lit "Hi")
                                (fresh_world (stub_transformers (lit "ok")))))
                 tt eq_refl eq_refl)).
Defined.

(** ** Paraphrase post-processor: what is extracted *)

Lemma lstrip_split (s : str) :
  exists pre, s = pre ++ lstrip s /\ Forall (fun c => isspace c = true) pre.
Proof.
  induction s as [|c s [pre [E F]]]; [exists []; split; [reflexivity | constructor]|].
  simpl. destruct (isspace c) eqn:Ec.
  - exists (c :: pre). split; [simpl; rewrite <- E; reflexivity|].
    constructor; assumption.
  - exists []. split; [reflexivity | constructor].
Qed.

Lemma rstrip_split (s : str) :
  exists post, s = rstrip s ++ post /\ Forall (fun c => isspace c = true) post.
Proof.
  unfold rstrip. destruct (lstrip_split (rev s)) as [pre [E F]].
  exists (rev pre). split.
  - rewrite <- rev_app_distr, <- E, rev_involutive. reflexivity.
  - apply Forall_rev. exact F.
Qed.

Lemma lstrip_fixed (s : str) :
  match s with [] => True | c :: _ => isspace c = false end -> lstrip s = s.
Proof. destruct s as [|c s]; simpl; [reflexivity | intros ->; reflexivity]. Qed.

Lemma rstrip_fixed (s : str) :
  match rev s with [] => True | c :: _ => isspace c = false end -> rstrip s = s.
Proof.
  intros H. unfold rstrip. rewrite (lstrip_fixed _ H). apply rev_involutive.
Qed.

Lemma strip_no_outer_space (s : str) : no_outer_space (strip s).
Proof.
  unfold no_outer_space, strip. split; [apply lstrip_head|].
  destruct (lstrip_split (rstrip s)) as [pre [E _]].
  pose proof (lstrip_head (rev s)) as Hh.
  assert (Er : rev (rstrip s) = lstrip (rev s))
    by (unfold rstrip; apply rev_involutive).
  rewrite <- Er, E, rev_app_distr in Hh.
  destruct (rev (lstrip (rstrip s))) as [|c r]; [exact I | exact Hh].
Qed.

Lemma strip_fixed (s : str) : no_outer_space s -> strip s = s.
Proof.
  intros [Hh Hl]. unfold strip. rewrite (rstrip_fixed _ Hl). apply lstrip_fixed.
  exact Hh.
Qed.

Lemma strip_split (s : str) :
  exists pre post,
    s = pre ++ strip s ++ post
    /\ Forall (fun c => isspace c = true) pre
    /\ Forall (fun c => isspace c = true) post.
Proof.
  destruct (rstrip_split s) as [post [E F]].
  destruct (lstrip_split (rstrip s)) as [pre [E' F']].
  exists pre, post. unfold strip. split; [|split; assumption].
  rewrite app_assoc, <- E'. exact E.
Qed.

Lemma after_marker_suffix (out : str) :
  exists before, out = before ++ after_marker out.
Proof.
  unfold after_marker.
  destruct (str_partition PARAPHRASE_MARKER out) as [[b a]|] eqn:E.
  - apply str_partition_some in E. destruct E as [E _].
    exists (b ++ PARAPHRASE_MARKER). rewrite <- app_assoc. exact E.
  - exists []. reflexivity.
Qed.

(** X12: the text extracted from what the generator returns is a contiguous
    part of it, bounded by whitespace only on the side of the text after
    the marker, and it has no whitespace at either end; stripping it again
    changes nothing. *)
Theorem extracted_text_is_trimmed (out : str) :
  exists r before after,
    extract_paraphrase out = Some r
    /\ out = before ++ r ++ after
    /\ Forall (fun c => isspace c = true) after
    /\ no_outer_space r
    /\ strip r = r.
Proof.
  destruct (after_marker_suffix out) as [before E].
  destruct (strip_split (after_marker out)) as [pre [post [E' [_ F]]]].
  exists (strip (after_marker out)), (before ++ pre), post.
  split; [apply extract_paraphrase_eq|].
  split; [rewrite <- app_assoc, <- E'; exact E|].
  split; [exact F|].
  split; [apply strip_no_outer_space|].
  apply strip_fixed. apply strip_no_outer_space.
Qed.

Lemma str_partition_eq (sep s : str) :
  str_partition sep s
  = if startswith sep s then Some ([], skipn (List.length sep) s)
    else match s with
         | [] => None
         | c :: s' =>
             match str_partition sep s' with
             | Some (before, after) => Some (c :: before, after)
             | None => None
             end
         end.
Proof. destruct s; reflexivity. Qed.

Lemma differs_startswith (sep u rest : str) :
  differs sep u = true -> startswith sep (u ++ rest) = false.
Proof.
  revert u. induction sep as [|a sep IH]; intros [|b u]; simpl;
    try discriminate.
  intros H. apply orb_true_iff in H. destruct H as [H|H].
  - apply negb_true_iff in H. rewrite H. reflexivity.
  - rewrite (IH u H). apply andb_false_r.
Qed.

(** A fixed text in which the separator cannot start is stepped over. *)
Lemma str_partition_after_prefix (sep pre s : str) :
  tails_differ sep pre = true ->
  str_partition sep (pre ++ s)
  = match str_partition sep s with
    | Some (before, after) => Some (pre ++ before, after)
    | None => None
    end.
Proof.
  induction pre as [|c pre IH]; intros H.
  - simpl. destruct (str_partition sep s) as [[b a]|]; reflexivity.
  - simpl in H. apply andb_true_iff in H. destruct H as [Hd Ht].
    assert (E : startswith sep (c :: pre ++ s) = false)
      by exact (differs_startswith sep (c :: pre) s Hd).
    change ((c :: pre) ++ s) with (c :: pre ++ s).
    rewrite str_partition_eq, E, (IH Ht).
    destruct (str_partition sep s) as [[b a]|]; reflexivity.
Qed.

Lemma startswith_stop (sep u rest : str) (c : char) :
  ~ In c sep -> startswith sep (u ++ c :: rest) = true ->
  startswith sep u = true.
Proof.
  revert u. induction sep as [|a sep IH]; intros u Hc H; [reflexivity|].
  destruct u as [|b u]; simpl in *.
  - apply andb_true_iff in H. destruct H as [H _]. apply N.eqb_eq in H.
    exfalso. apply Hc. left. exact H.
  - apply andb_true_iff in H. destruct H as [H1 H2]. rewrite H1. simpl.
    apply IH; [intros Hin; apply Hc; right; exact Hin | exact H2].
Qed.

Lemma startswith_Substring (sep u : str) :
  startswith sep u = true -> Substring sep u.
Proof.
  intros H. apply startswith_spec in H. destruct H as [post ->].
  exists [], post. reflexivity.
Qed.

(** A separator that follows a text free of it, after a character it does
    not hold, is found there. *)
Lemma str_partition_through (sep r cont : str) (c : char) :
  sep <> [] -> ~ In c sep -> ~ Substring sep r ->
  str_partition sep (r ++ c :: sep ++ cont) = Some (r ++ [c], cont).
Proof.
  intros Hne Hc. induction r as [|x r IH]; intros Hfree.
  - simpl app. rewrite str_partition_eq.
    assert (E0 : startswith sep (c :: sep ++ cont) = false).
    { destruct (startswith sep (c :: sep ++ cont)) eqn:E; [|reflexivity].
      exfalso. apply (startswith_stop sep [] (sep ++ cont) c Hc) in E.
      destruct sep; [congruence | discriminate E]. }
    rewrite E0, str_partition_eq.
    assert (E1 : startswith sep (sep ++ cont) = true)
      by (apply startswith_spec; exists cont; reflexivity).
    rewrite E1, skipn_length_app. reflexivity.
  - simpl app. rewrite str_partition_eq.
    assert (E0 : startswith sep (x :: r ++ c :: sep ++ cont) = false).
    { destruct (startswith sep (x :: r ++ c :: sep ++ cont)) eqn:E;
        [|reflexivity].
      exfalso. apply Hfree. apply startswith_Substring.
      exact (startswith_stop sep (x :: r) (sep ++ cont) c Hc E). }
    rewrite E0, IH; [reflexivity|].
    intros [pre [post E]]. apply Hfree. exists (x :: pre), post.
    simpl. rewrite E. reflexivity.
Qed.

Lemma prompt_shape (reply cont : str) :
  paraphrase_prompt reply ++ cont
  = PROMPT_HEAD ++ (reply ++ 10%N :: PARAPHRASE_MARKER ++ cont).
Proof.
  unfold paraphrase_prompt, PROMPT_HEAD, NL, PARAPHRASE_MARKER.
  rewrite <- !app_assoc. reflexivity.
Qed.

(** X13: when the generator answers the prompt followed by its
    continuation, and the reply does not itself hold "Paraphrase:", the text
    extracted is that continuation, stripped. *)
Theorem echoed_prompt_is_removed (reply cont : str) :
  ~ Substring PARAPHRASE_MARKER reply ->
  extract_paraphrase (paraphrase_prompt reply ++ cont) = Some (strip cont).
Proof.
  intros Hfree. rewrite extract_paraphrase_eq. unfold after_marker.
  rewrite prompt_shape, str_partition_after_prefix by reflexivity.
  rewrite str_partition_through;
    [reflexivity | discriminate | | exact Hfree].
  intros H. vm_compute in H. repeat (destruct H as [H|H]; [discriminate H|]).
  exact H.
Qed.

(** X13 at a template reply and a continuation. *)
Lemma echoed_prompt_is_removed_witness :
  extract_paraphrase
    (paraphrase_prompt (lit "Hi there, thanks for sharing your thoughts.")
     ++ lit " Thanks a lot for telling us! ")
  = Some (lit "Thanks a lot for telling us!").
Proof.
  rewrite (echoed_prompt_is_removed
             (lit "Hi there, thanks for sharing your thoughts.")
             (lit " Thanks a lot for telling us! "));
    [reflexivity | apply str_in_false; reflexivity].
Defined.

Lemma startswith_within (sep s rest : str) :
  List.length sep <= List.length s ->
  startswith sep (s ++ rest) = startswith sep s.
Proof.
  revert s. induction sep as [|a sep IH]; intros s Hlen; [reflexivity|].
  destruct s as [|b s]; simpl in *; [lia|].
  rewrite IH by lia. reflexivity.
Qed.

Lemma skipn_within {A : Type} (n : nat) (s rest : list A) :
  n <= List.length s -> skipn n (s ++ rest) = skipn n s ++ rest.
Proof.
  revert s. induction n as [|n IH]; intros s Hlen; [reflexivity|].
  destruct s as [|x s]; simpl in *; [lia | apply IH; lia].
Qed.

(** The leftmost occurrence stays the leftmost when text is appended. *)
Lemma str_partition_append (sep s rest before after : str) :
  str_partition sep s = Some (before, after) ->
  str_partition sep (s ++ rest) = Some (before, after ++ rest).
Proof.
  revert before. induction s as [|c s IH]; intros before H.
  - rewrite str_partition_eq in H.
    destruct (startswith sep []) eqn:E; [|discriminate H].
    injection H as <- <-. destruct sep; [|discriminate E].
    simpl. rewrite str_partition_eq. reflexivity.
  - pose proof (str_partition_some _ _ _ _ H) as [Hs _].
    assert (Hlen : List.length sep <= List.length (c :: s))
      by (rewrite Hs, !length_app; lia).
    rewrite str_partition_eq in H.
    pose proof (startswith_within sep (c :: s) rest Hlen) as Ew.
    pose proof (skipn_within (List.length sep) (c :: s) rest Hlen) as Ek.
    change ((c :: s) ++ rest) with (c :: s ++ rest) in *.
    rewrite str_partition_eq, Ew.
    destruct (startswith sep (c :: s)) eqn:E.
    + injection H as <- <-. rewrite Ek. reflexivity.
    + destruct (str_partition sep s) as [[b a]|] eqn:P; [|discriminate H].
      injection H as <- <-. rewrite (IH b eq_refl). reflexivity.
Qed.

Lemma str_partition_found (sep s : str) :
  Substring sep s -> exists before after, str_partition sep s = Some (before, after).
Proof.
  intros H. destruct (str_partition sep s) as [[b a]|] eqn:E; [eauto|].
  exfalso. exact (str_partition_none _ _ E H).
Qed.

(** X14: when the reply itself holds "Paraphrase:" (a customer name can
    bring it in), the split takes that first occurrence: what is extracted
    from an echoed prompt starts in the middle of the reply and holds the
    rest of the prompt, marker included, before the continuation. *)
Theorem marker_in_reply_is_taken (reply cont : str) :
  Substring PARAPHRASE_MARKER reply ->
  exists before after,
    reply = before ++ PARAPHRASE_MARKER ++ after
    /\ (forall pre post, reply = pre ++ PARAPHRASE_MARKER ++ post ->
          List.length before <= List.length pre)
    /\ extract_paraphrase (paraphrase_prompt reply ++ cont)
       = Some (strip (after ++ NL ++ lit "Paraphrase:" ++ cont)).
Proof.
  intros H. destruct (str_partition_found _ _ H) as [before [after E]].
  exists before, after. pose proof (str_partition_some _ _ _ _ E) as [Hs Hleft].
  split; [exact Hs|]. split; [exact Hleft|].
  rewrite extract_paraphrase_eq. unfold after_marker.
  rewrite prompt_shape, str_partition_after_prefix by reflexivity.
  rewrite (str_partition_append _ _ (10%N :: PARAPHRASE_MARKER ++ cont) _ _ E).
  reflexivity.
Qed.

(** X14 at a customer called "Paraphrase: Bob". *)
Lemma marker_in_reply_is_taken_witness :
  exists before after,
    build_template_reply ascii_lower (lit "ok")
      {| label := lit "neutral"; confidence := S754_zero false |}
      [lit "food"] (Some (lit "Paraphrase: Bob"))
    = before ++ PARAPHRASE_MARKER ++ after
    /\ (forall pre post,
          build_template_reply ascii_lower (lit "ok")
            {| label := lit "neutral"; confidence := S754_zero false |}
            [lit "food"] (Some (lit "Paraphrase: Bob"))
          = pre ++ PARAPHRASE_MARKER ++ post ->
          List.length before <= List.length pre)
    /\ extract_paraphrase
         (paraphrase_prompt
            (build_template_reply ascii_lower (lit "ok")
               {| label := lit "neutral"; confidence := S754_zero false |}
               [lit "food"] (Some (lit "Paraphrase: Bob")))
          ++ lit " Thanks!")
       = Some (strip (after ++ NL ++ lit "Paraphrase:" ++ lit " Thanks!")).
Proof.
  apply (marker_in_reply_is_taken
           (build_template_reply ascii_lower (lit "ok")
              {| label := lit "neutral"; confidence := S754_zero false |}
              [lit "food"] (Some (lit "Paraphrase: Bob")))
           (lit " Thanks!")).
  apply str_in_spec. reflexivity.
Defined.

(** ** Sentiment classifier adapter *)

Lemma SFltb_key (x y : spec_float) :
  is_nan x = false -> is_nan y = false ->
  (SFltb x y = true <-> key_lt (float_key x) (float_key y)).
Proof.
  unfold SFltb, key_lt.
  destruct x as [sx|sx| |sx mx ex], y as [sy|sy| |sy my ey];
    try discriminate; intros _ _;
    try (destruct sx); try (destruct sy); simpl;
    try (split; [discriminate | intros H; exfalso; lia]);
    try (split; [intros _; lia | reflexivity]).
  - change (Pos.compare_cont Eq mx my) with (Pos.compare mx my).
    destruct (Z.compare_spec ex ey) as [E|E|E];
      [destruct (Pos.compare_spec mx my) as [F|F|F]| |]; simpl;
      try (split; [discriminate | intros H; exfalso; lia]);
      try (split; [intros _; lia | reflexivity]).
  - change (Pos.compare_cont Eq mx my) with (Pos.compare mx my).
    destruct (Z.compare_spec ex ey) as [E|E|E];
      [destruct (Pos.compare_spec mx my) as [F|F|F]| |]; simpl;
      try (split; [discriminate | intros H; exfalso; lia]);
      try (split; [intros _; lia | reflexivity]).
Qed.

Lemma SFltb_not_nan (x y : spec_float) :
  SFltb x y = true -> is_nan x = false /\ is_nan y = false.
Proof.
  unfold SFltb. destruct x as [sx|sx| |sx mx ex], y as [sy|sy| |sy my ey];
    simpl; try discriminate; auto.
Qed.

Lemma SFltb_nan_l (y : spec_float) (x : spec_float) :
  is_nan x = true -> SFltb x y = false.
Proof. destruct x; try discriminate. reflexivity. Qed.

Lemma SFltb_nan_r (x y : spec_float) : is_nan y = true -> SFltb x y = false.
Proof. destruct y; try discriminate. destruct x; reflexivity. Qed.

Lemma SFltb_trans (x y z : spec_float) :
  SFltb x y = true -> SFltb y z = true -> SFltb x z = true.
Proof.
  intros H1 H2.
  destruct (SFltb_not_nan _ _ H1) as [Nx Ny].
  destruct (SFltb_not_nan _ _ H2) as [_ Nz].
  apply SFltb_key in H1, H2; try assumption. apply SFltb_key; try assumption.
  unfold key_lt in *. lia.
Qed.

Lemma SFltb_false_key (x y : spec_float) :
  is_nan x = false -> is_nan y = false -> SFltb x y = false ->
  ~ key_lt (float_key x) (float_key y).
Proof.
  intros Nx Ny H K. apply SFltb_key in K; try assumption. congruence.
Qed.

(** Between floats that are not NaN, not being less is transitive. *)
Lemma SFltb_false_trans (x y z : spec_float) :
  is_nan x = false -> is_nan y = false -> is_nan z = false ->
  SFltb x y = false -> SFltb y z = false -> SFltb x z = false.
Proof.
  intros Nx Ny Nz H1 H2.
  apply SFltb_false_key in H1, H2; try assumption.
  destruct (SFltb x z) eqn:E; [|reflexivity].
  apply SFltb_key in E; try assumption. unfold key_lt in *. lia.
Qed.

Lemma SFltb_false_lt (x y z : spec_float) :
  is_nan x = false -> is_nan y = false ->
  SFltb x y = false -> SFltb x z = true -> SFltb y z = true.
Proof.
  intros Nx Ny H1 H2. destruct (SFltb_not_nan _ _ H2) as [_ Nz].
  apply SFltb_false_key in H1; try assumption.
  apply SFltb_key in H2; try assumption. apply SFltb_key; try assumption.
  unfold key_lt in *. lia.
Qed.

Lemma SFltb_irrefl (x : spec_float) : SFltb x x = false.
Proof.
  destruct (is_nan x) eqn:N; [apply SFltb_nan_l; exact N|].
  destruct (SFltb x x) eqn:E; [|reflexivity].
  apply SFltb_key in E; try assumption. unfold key_lt in E. lia.
Qed.

Lemma SFltb_lt_false (x y z : spec_float) :
  is_nan z = false -> SFltb x y = true -> SFltb z y = false -> SFltb x z = true.
Proof.
  intros Nz H1 H2. destruct (SFltb_not_nan _ _ H1) as [Nx Ny].
  apply SFltb_false_key in H2; try assumption.
  apply SFltb_key in H1; try assumption. apply SFltb_key; try assumption.
  unfold key_lt in *. lia.
Qed.

Section MaxFacts.
Context {A : Type}.
Variable key : A -> spec_float.

Lemma max_from_in (m : A) (rest : list A) : In (max_from key m rest) (m :: rest).
Proof.
  revert m. induction rest as [|i rest IH]; intros m; simpl; [auto|].
  destruct (SFltb (key m) (key i)).
  - right. apply IH.
  - destruct (IH m) as [H|H]; [left; exact H | right; right; exact H].
Qed.

Lemma max_from_nan (m : A) (rest : list A) :
  is_nan (key m) = true -> max_from key m rest = m.
Proof.
  intros N. induction rest as [|i rest IH]; simpl; [reflexivity|].
  rewrite (SFltb_nan_l (key i) (key m) N). exact IH.
Qed.

Lemma max_from_not_nan (m : A) (rest : list A) :
  is_nan (key m) = false -> is_nan (key (max_from key m rest)) = false.
Proof.
  revert m. induction rest as [|i rest IH]; intros m N; simpl; [exact N|].
  destruct (SFltb (key m) (key i)) eqn:E; [|apply IH; exact N].
  apply IH. apply (SFltb_not_nan _ _ E).
Qed.

Lemma max_from_ge_start (m : A) (rest : list A) :
  SFltb (key (max_from key m rest)) (key m) = false.
Proof.
  revert m. induction rest as [|i rest IH]; intros m; simpl;
    [apply SFltb_irrefl|].
  destruct (SFltb (key m) (key i)) eqn:E; [|apply IH].
  destruct (SFltb (key (max_from key i rest)) (key m)) eqn:F; [|reflexivity].
  pose proof (SFltb_trans _ _ _ F E) as G. rewrite IH in G. discriminate G.
Qed.

Lemma max_from_max (m : A) (rest : list A) (s : A) :
  In s (m :: rest) -> SFltb (key (max_from key m rest)) (key s) = false.
Proof.
  revert m. induction rest as [|i rest IH]; intros m Hs.
  - destruct Hs as [<-|[]]. apply SFltb_irrefl.
  - simpl. destruct (SFltb (key m) (key i)) eqn:E.
    + destruct Hs as [<-|Hs]; [|apply IH; exact Hs].
      destruct (SFltb (key (max_from key i rest)) (key m)) eqn:F; [|reflexivity].
      pose proof (SFltb_trans _ _ _ F E) as G.
      rewrite max_from_ge_start in G. discriminate G.
    + destruct Hs as [<-|[<-|Hs]].
      * apply IH. left. reflexivity.
      * destruct (is_nan (key m)) eqn:Nm.
        { rewrite (max_from_nan m rest Nm). exact E. }
        destruct (is_nan (key i)) eqn:Ns; [apply SFltb_nan_r; exact Ns|].
        apply SFltb_false_trans with (y := key m); try assumption.
        -- apply max_from_not_nan. exact Nm.
        -- apply max_from_ge_start.
      * apply IH. right. exact Hs.
Qed.

Lemma max_from_first (m : A) (rest : list A) :
  Forall (fun x => is_nan (key x) = false) (m :: rest) ->
  exists before after,
    m :: rest = before ++ max_from key m rest :: after
    /\ (forall s, In s before -> SFltb (key s) (key (max_from key m rest)) = true)
    /\ (forall s, In s after -> SFltb (key (max_from key m rest)) (key s) = false).
Proof.
  revert m. induction rest as [|i rest IH]; intros m HN.
  - exists [], []. repeat split; intros s [].
  - inversion HN as [|? ? Nm HN']; subst. inversion HN' as [|? ? Ni HNr]; subst.
    simpl. destruct (SFltb (key m) (key i)) eqn:E.
    + destruct (IH i HN') as [b [a [Eq [Hb Ha]]]].
      exists (m :: b), a. split; [simpl; rewrite <- Eq; reflexivity|].
      split; [|exact Ha].
      intros s [<-|Hs]; [|apply Hb; exact Hs].
      apply SFltb_lt_false with (y := key i);
        [apply max_from_not_nan; exact Ni | exact E | apply max_from_ge_start].
    + assert (HNm : Forall (fun x => is_nan (key x) = false) (m :: rest))
        by (constructor; assumption).
      destruct (IH m HNm) as [b [a [Eq [Hb Ha]]]].
      destruct b as [|m' b].
      * simpl in Eq. injection Eq as Em Er.
        exists [], (i :: a). split; [simpl; rewrite <- Em, <- Er; reflexivity|].
        split; [intros s []|].
        intros s [<-|Hs]; [rewrite <- Em; exact E | apply Ha; exact Hs].
      * simpl in Eq. injection Eq as Em Er. subst m'.
        exists (m :: i :: b), a.
        split; [simpl; rewrite <- Er; reflexivity|]. split; [|exact Ha].
        intros s [<-|[<-|Hs]].
        -- apply Hb. left. reflexivity.
        -- apply SFltb_false_lt with (x := key m); try assumption.
           apply Hb. left. reflexivity.
        -- apply Hb. right. exact Hs.
Qed.
End MaxFacts.

Lemma classify_sentiment_eq (T : Transformers) (C : Classifier) (review : str)
  (p : Process T C) :
  classify_sentiment review p
  = match get_sentiment_pipe p with
    | (Ok pipe, p1) =>
        let p2 := {| gen_world := gen_world p1;
                     _sentiment_pipe := _sentiment_pipe p1;
                     sentiment_trace := sentiment_trace p1 ++ [EvClassify review];
                     stdin := stdin p1;
                     stdout := stdout p1;
                     stdout_accepts := stdout_accepts p1 |} in
        match classify C (sentiment_trace p1) pipe review with
        | Some ((first :: rest) :: _) =>
            (Ok {| label := fst (max_from (fun s : str * spec_float => snd s)
                                   first rest);
                   confidence := snd (max_from (fun s : str * spec_float => snd s)
                                        first rest) |},
             p2)
        | Some ([] :: _) | Some [] | None => (Raised, p2)
        end
    | (Raised, p1) => (Raised, p1)
    end.
Proof.
  unfold classify_sentiment, pbind, call_classify, of_option, pret.
  destruct (get_sentiment_pipe p) as [[pipe|] p1]; [|reflexivity].
  destruct (classify C (sentiment_trace p1) pipe review) as [[|[|first rest] others]|];
    reflexivity.
Qed.

(** X15: [get_sentiment_pipe] builds the classifier once: a call that
    succeeds leaves the handle in [_sentiment_pipe], having asked the library
    for a "text-classification" pipeline of the sentiment model, with the
    same tokenizer, all scores and truncation, only if none was there, and a
    second call returns the same handle and asks the library nothing; a call
    that raises leaves [_sentiment_pipe] empty. *)
Theorem get_sentiment_pipe_once (T : Transformers) (C : Classifier)
  (p : Process T C) :
  (forall pipe p1,
      get_sentiment_pipe p = (Ok pipe, p1) ->
      _sentiment_pipe p1 = Some pipe
      /\ get_sentiment_pipe p1 = (Ok pipe, p1)
      /\ gen_world p1 = gen_world p /\ stdout p1 = stdout p
      /\ ((_sentiment_pipe p = Some pipe /\ p1 = p)
          \/ (_sentiment_pipe p = None
              /\ sentiment_trace p1
                 = sentiment_trace p
                   ++ [EvSentimentPipeline (lit "text-classification")
                         _SENTIMENT_MODEL_ID _SENTIMENT_MODEL_ID true true])))
  /\ (forall p1,
        get_sentiment_pipe p = (Raised, p1) ->
        _sentiment_pipe p = None /\ _sentiment_pipe p1 = None
        /\ sentiment_trace p1
           = sentiment_trace p
             ++ [EvSentimentPipeline (lit "text-classification")
                   _SENTIMENT_MODEL_ID _SENTIMENT_MODEL_ID true true]).
Proof.
  unfold get_sentiment_pipe, pbind, read_sentiment_pipe,
    call_sentiment_pipeline, write_sentiment_pipe, pret.
  destruct (_sentiment_pipe p) as [q|] eqn:G; simpl.
  - split; [|intros p1 H; discriminate H].
    intros pipe p1 H. injection H as <- <-. rewrite G.
    repeat split. left. split; reflexivity.
  - destruct (sentiment_pipeline C (sentiment_trace p)
                (lit "text-classification") _SENTIMENT_MODEL_ID
                _SENTIMENT_MODEL_ID true true) as [q|] eqn:Ep; simpl.
    + split; [|intros p1 H; discriminate H].
      intros pipe p1 H. injection H as <- <-. simpl.
      repeat split. right. split; reflexivity.
    + split; [intros pipe p1 H; discriminate H|].
      intros p1 H. injection H as <-. simpl. rewrite G. repeat split.
Qed.

(** X15 at a fresh process. *)
Lemma get_sentiment_pipe_once_witness :
  get_sentiment_pipe
    (snd (get_sentiment_pipe
            (fresh_process (stub_transformers []) (stub_classifier []) [])))
  = (Ok tt,
     snd (get_sentiment_pipe
            (fresh_process (stub_transformers []) (stub_classifier []) []))).
Proof.
  exact (proj1 (proj2 (proj1 (get_sentiment_pipe_once _ _
                                (fresh_process (stub_transformers [])
                                   (stub_classifier []) []))
                         tt _ eq_refl))).
Defined.

(** X16: when the classifier answers, [classify_sentiment] returns the label
    and the score of one entry of the first list of scores, and no entry of
    that list has a greater score; if the score of the first entry is a NaN,
    that entry is returned.  The classifier is run once, on the review. *)
Theorem classify_sentiment_top (T : Transformers) (C : Classifier) (review : str)
  (p p1 : Process T C) (pipe : SentimentPipeline C)
  (scores : list (str * spec_float)) (others : list (list (str * spec_float))) :
  get_sentiment_pipe p = (Ok pipe, p1) ->
  classify C (sentiment_trace p1) pipe review = Some (scores :: others) ->
  scores <> [] ->
  exists top p2,
    classify_sentiment review p
    = (Ok {| label := fst top; confidence := snd top |}, p2)
    /\ In top scores
    /\ (forall e, In e scores -> SFltb (snd top) (snd e) = false)
    /\ (forall first rest, scores = first :: rest ->
          is_nan (snd first) = true -> top = first)
    /\ sentiment_trace p2 = sentiment_trace p1 ++ [EvClassify review]
    /\ gen_world p2 = gen_world p1 /\ stdout p2 = stdout p1.
Proof.
  intros G Hc Hne. rewrite classify_sentiment_eq, G, Hc.
  destruct scores as [|first rest]; [congruence|].
  eexists. eexists. split; [reflexivity|].
  split; [apply max_from_in|].
  split; [intros e He; apply (max_from_max (fun s : str * spec_float => snd s));
          exact He|].
  split; [|repeat split].
  intros f r E N. injection E as <- <-.
  apply (max_from_nan (fun s : str * spec_float => snd s)). exact N.
Qed.

(** X16 at three scores. *)
Lemma classify_sentiment_top_witness :
  fst (classify_sentiment
         (T := stub_transformers [])
         (C := stub_classifier
                 [[(lit "negative", S754_finite false 4503599627370496 (-55));
                   (lit "neutral", S754_finite false 4503599627370496 (-53));
                   (lit "positive", S754_finite false 4503599627370496 (-54))]])
         (lit "fine") (fresh_process _ _ []))
  = Ok {| label := lit "neutral";
          confidence := S754_finite false 4503599627370496 (-53) |}.
Proof.
  destruct (classify_sentiment_top
              (stub_transformers [])
              (stub_classifier
                 [[(lit "negative", S754_finite false 4503599627370496 (-55));
                   (lit "neutral", S754_finite false 4503599627370496 (-53));
                   (lit "positive", S754_finite false 4503599627370496 (-54))]])
              (lit "fine") (fresh_process _ _ []) _ tt _ [] eq_refl eq_refl
              ltac:(discriminate))
    as [top [p2 [E _]]].
  rewrite E. simpl. f_equal.
  apply (f_equal fst) in E. injection E as E1 E2.
  rewrite <- E1, <- E2. reflexivity.
Defined.

(** X17: when no score is a NaN, the entry returned is the first of those
    with the greatest score: every entry before it has a smaller score and
    no entry after it has a greater one. *)
Theorem classify_sentiment_first_of_ties (T : Transformers) (C : Classifier)
  (review : str) (p p1 : Process T C) (pipe : SentimentPipeline C)
  (scores : list (str * spec_float)) (others : list (list (str * spec_float))) :
  get_sentiment_pipe p = (Ok pipe, p1) ->
  classify C (sentiment_trace p1) pipe review = Some (scores :: others) ->
  scores <> [] ->
  Forall (fun e => is_nan (snd e) = false) scores ->
  exists before top after,
    scores = before ++ top :: after
    /\ fst (classify_sentiment review p)
       = Ok {| label := fst top; confidence := snd top |}
    /\ (forall e, In e before -> SFltb (snd e) (snd top) = true)
    /\ (forall e, In e after -> SFltb (snd top) (snd e) = false).
Proof.
  intros G Hc Hne HN. rewrite classify_sentiment_eq, G, Hc.
  destruct scores as [|first rest]; [congruence|].
  destruct (max_from_first (fun s : str * spec_float => snd s) first rest HN)
    as [b [a [E [Hb Ha]]]].
  exists b, (max_from (fun s : str * spec_float => snd s) first rest), a.
  split; [exact E|]. split; [reflexivity|]. split; assumption.
Qed.

(** X17 at two equal scores: the first wins. *)
Lemma classify_sentiment_first_of_ties_witness :
  exists before top after,
    [(lit "negative", S754_finite false 4503599627370496 (-54));
     (lit "neutral", S754_finite false 4503599627370496 (-53));
     (lit "positive", S754_finite false 4503599627370496 (-53))]
    = before ++ top :: after
    /\ fst (classify_sentiment
              (T := stub_transformers [])
              (C := stub_classifier
                      [[(lit "negative", S754_finite false 4503599627370496 (-54));
                        (lit "neutral", S754_finite false 4503599627370496 (-53));
                        (lit "positive", S754_finite false 4503599627370496 (-53))]])
              (lit "fine") (fresh_process _ _ []))
       = Ok {| label := fst top; confidence := snd top |}
    /\ (forall e, In e before -> SFltb (snd e) (snd top) = true)
    /\ (forall e, In e after -> SFltb (snd top) (snd e) = false).
Proof.
  apply (classify_sentiment_first_of_ties
           (stub_transformers [])
           (stub_classifier
              [[(lit "negative", S754_finite false 4503599627370496 (-54));
                (lit "neutral", S754_finite false 4503599627370496 (-53));
                (lit "positive", S754_finite false 4503599627370496 (-53))]])
           (lit "fine") (fresh_process _ _ []) _ tt _ [] eq_refl eq_refl).
  - discriminate.
  - repeat constructor.
Defined.

(** X18: [classify_sentiment] raises when the pipeline cannot be built, when
    the classifier raises, when it answers an empty list and when the first
    list of scores is empty; in the last three cases the run of the
    classifier is on record. *)
Theorem classify_sentiment_raises (T : Transformers) (C : Classifier)
  (review : str) (p : Process T C) :
  (forall p1, get_sentiment_pipe p = (Raised, p1) ->
     classify_sentiment review p = (Raised, p1))
  /\ (forall pipe p1 out,
        get_sentiment_pipe p = (Ok pipe, p1) ->
        classify C (sentiment_trace p1) pipe review = out ->
        out = None \/ out = Some [] \/ (exists others, out = Some ([] :: others)) ->
        fst (classify_sentiment review p) = Raised
        /\ sentiment_trace (snd (classify_sentiment review p))
           = sentiment_trace p1 ++ [EvClassify review]
        /\ stdout (snd (classify_sentiment review p)) = stdout p1).
Proof.
  split.
  - intros p1 G. rewrite classify_sentiment_eq, G. reflexivity.
  - intros pipe p1 out G Hc Hout. rewrite classify_sentiment_eq, G, Hc.
    destruct Hout as [->|[->|[others ->]]]; repeat split.
Qed.

(** X18 at a classifier that answers no scores. *)
Lemma classify_sentiment_raises_witness :
  fst (classify_sentiment
         (T := stub_transformers []) (C := stub_classifier [[]])
         (lit "fine") (fresh_process _ _ []))
  = Raised.
Proof.
  apply (proj2 (classify_sentiment_raises (stub_transformers [])
                  (stub_classifier [[]]) (lit "fine") (fresh_process _ _ []))
           tt _ (Some [[]]) eq_refl eq_refl).
  right. right. exists []. reflexivity.
Defined.

(** ** The whole pipeline and the shell *)

Lemma same_but_stdout_refl (T : Transformers) (C : Classifier)
  (p : Process T C) : same_but_stdout p p.
Proof. repeat split. Qed.

Lemma same_but_stdout_trans (T : Transformers) (C : Classifier)
  (p p1 p2 : Process T C) :
  same_but_stdout p p1 -> same_but_stdout p1 p2 -> same_but_stdout p p2.
Proof.
  unfold same_but_stdout. intros [A1 [A2 [A3 [A4 A5]]]] [B1 [B2 [B3 [B4 B5]]]].
  repeat split; congruence.
Qed.

Lemma accepts_all_same (T : Transformers) (C : Classifier)
  (p p' : Process T C) :
  stdout_accepts p' = stdout_accepts p -> accepts_all p -> accepts_all p'.
Proof. unfold accepts_all. intros E H written text. rewrite E. apply H. Qed.

Lemma NL_nonempty (s : str) : s ++ NL <> [].
Proof. intros E. apply app_eq_nil in E. destruct E as [_ E]. discriminate E. Qed.

Lemma print_writes (T : Transformers) (C : Classifier) (line : str) :
  writes (T := T) (C := C) (print line) (line ++ NL).
Proof.
  intros p. unfold print, pbind, write_stdout.
  destruct (stdout_accepts p (stdout p) line) eqn:E1;
    cbn [fst snd gen_world _sentiment_pipe sentiment_trace stdin stdout
           stdout_accepts].
  - destruct (stdout_accepts p (stdout p ++ line) NL) eqn:E2;
      cbn [fst snd gen_world _sentiment_pipe sentiment_trace stdin stdout
             stdout_accepts].
    + split; [repeat split|]. split; [reflexivity|].
      exists (line ++ NL), []. rewrite app_nil_r, <- app_assoc.
      repeat split; [intros E; discriminate E].
    + split; [repeat split|].
      split; [intros H; rewrite H in E2; discriminate E2|].
      exists line, NL. repeat split; [discriminate | intros _; discriminate].
  - split; [repeat split|].
    split; [intros H; rewrite H in E1; discriminate E1|].
    exists [], (line ++ NL). rewrite app_nil_r.
    repeat split; [discriminate | intros _; apply NL_nonempty].
Qed.

Lemma writes_bind (T : Transformers) (C : Classifier) (m k : P T C unit)
  (A B : str) :
  writes m A -> writes k B -> writes (pbind m (fun _ => k)) (A ++ B).
Proof.
  intros Hm Hk p. unfold pbind.
  destruct (Hm p) as [Fm [Om [wA [rA [EA [SA [OkA RaA]]]]]]].
  destruct (m p) as [[[]|] p1]; simpl in Fm, Om, SA, OkA, RaA.
  - destruct (Hk p1) as [Fk [Ok_k [wB [rB [EB [SB [OkB RaB]]]]]]].
    rewrite (OkA eq_refl), app_nil_r in EA. subst A.
    split; [exact (same_but_stdout_trans _ _ _ _ _ Fm Fk)|].
    split.
    { intros H. apply Ok_k. apply (accepts_all_same _ _ p p1); [apply Fm | exact H]. }
    exists (wA ++ wB), rB. rewrite SB, SA, EB, <- !app_assoc.
    repeat split; assumption.
  - simpl. split; [exact Fm|].
    split; [intros H; specialize (Om H); discriminate Om|].
    exists wA, (rA ++ B). rewrite EA, <- app_assoc.
    repeat split; [exact SA | discriminate |].
    intros _ E. apply app_eq_nil in E. destruct E as [E _].
    exact (RaA eq_refl E).
Qed.

Lemma print_report_writes (T : Transformers) (C : Classifier)
  (format_3f : spec_float -> str) (sent : SentimentResult) (reply_final : str) :
  writes (T := T) (C := C) (print_report format_3f sent reply_final)
    (console_report format_3f sent reply_final).
Proof.
  replace (console_report format_3f sent reply_final)
    with (((NL ++ lit "=== Classification ===") ++ NL)
          ++ ((lit "Sentiment : " ++ label sent ++ lit " (confidence="
               ++ format_3f (confidence sent) ++ lit ")") ++ NL)
          ++ ((NL ++ lit "=== Auto-Reply ===") ++ NL)
          ++ (reply_final ++ NL))
    by (unfold console_report; rewrite <- !app_assoc; reflexivity).
  unfold print_report.
  repeat (apply writes_bind; [apply print_writes|]). apply print_writes.
Qed.

Lemma get_sentiment_pipe_frame (T : Transformers) (C : Classifier)
  (p : Process T C) :
  gen_world (snd (get_sentiment_pipe p)) = gen_world p
  /\ stdin (snd (get_sentiment_pipe p)) = stdin p
  /\ stdout (snd (get_sentiment_pipe p)) = stdout p
  /\ stdout_accepts (snd (get_sentiment_pipe p)) = stdout_accepts p.
Proof.
  unfold get_sentiment_pipe, pbind, read_sentiment_pipe,
    call_sentiment_pipeline, write_sentiment_pipe, pret.
  destruct (_sentiment_pipe p) as [q|]; simpl; [repeat split|].
  destruct (sentiment_pipeline C (sentiment_trace p)
              (lit "text-classification") _SENTIMENT_MODEL_ID
              _SENTIMENT_MODEL_ID true true); simpl; repeat split.
Qed.

Lemma classify_sentiment_frame (T : Transformers) (C : Classifier)
  (review : str) (p : Process T C) :
  gen_world (snd (classify_sentiment review p)) = gen_world p
  /\ stdin (snd (classify_sentiment review p)) = stdin p
  /\ stdout (snd (classify_sentiment review p)) = stdout p
  /\ stdout_accepts (snd (classify_sentiment review p)) = stdout_accepts p.
Proof.
  rewrite classify_sentiment_eq.
  pose proof (get_sentiment_pipe_frame T C p) as Hf.
  destruct (get_sentiment_pipe p) as [[pipe|] p1]; simpl in Hf; [|exact Hf].
  destruct (classify C (sentiment_trace p1) pipe review)
    as [[|[|first rest] others]|]; exact Hf.
Qed.


Section ShellFacts.
Context {T : Transformers} {C : Classifier}.
Variable lower : str -> str.
Variable format_3f : spec_float -> str.

Lemma generate_feedback_response_eq (review : str) (customer_name : option str)
  (flag : bool) (p : Process T C) :
  generate_feedback_response lower format_3f review customer_name flag p
  = match classify_sentiment review p with
    | (Ok sent, p1) =>
        match lift_gen (maybe_paraphrase
                          (reply_base lower review sent customer_name) flag) p1 with
        | (Ok reply_final, p2) => print_report format_3f sent reply_final p2
        | (Raised, p2) => (Raised, p2)
        end
    | (Raised, p1) => (Raised, p1)
    end.
Proof.
  unfold generate_feedback_response, pbind, print_report, reply_base.
  destruct (classify_sentiment review p) as [[sent|] p1]; reflexivity.
Qed.

Lemma lift_gen_frame {A : Type} (m : M T A) (p : Process T C) :
  fst (lift_gen m p) = fst (m (gen_world p))
  /\ gen_world (snd (lift_gen m p)) = snd (m (gen_world p))
  /\ _sentiment_pipe (snd (lift_gen m p)) = _sentiment_pipe p
  /\ sentiment_trace (snd (lift_gen m p)) = sentiment_trace p
  /\ stdin (snd (lift_gen m p)) = stdin p
  /\ stdout (snd (lift_gen m p)) = stdout p
  /\ stdout_accepts (snd (lift_gen m p)) = stdout_accepts p.
Proof.
  unfold lift_gen. destruct (m (gen_world p)) as [r w]. repeat split.
Qed.


Lemma feedback_response_disabled_gen_world (review : str)
  (customer_name : option str) (p : Process T C) :
  gen_world (snd (generate_feedback_response lower format_3f review
                    customer_name false p))
  = gen_world p.
Proof.
  rewrite generate_feedback_response_eq.
  destruct (classify_sentiment_frame T C review p) as [Hg _].
  destruct (classify_sentiment review p) as [[sent|] p1]; simpl in Hg;
    [|exact Hg].
  destruct (lift_gen_frame
              (maybe_paraphrase (reply_base lower review sent customer_name)
                 false) p1) as [Hf [Hg2 _]].
  change (maybe_paraphrase (reply_base lower review sent customer_name) false
            (gen_world p1))
    with (Ok (reply_base lower review sent customer_name), gen_world p1)
    in Hf, Hg2.
  destruct (lift_gen (maybe_paraphrase
                        (reply_base lower review sent customer_name) false) p1)
    as [r2 p2]; simpl in Hf, Hg2. subst r2.
  destruct (print_report_writes T C format_3f sent
              (reply_base lower review sent customer_name) p2)
    as [[Hg3 _] _].
  congruence.
Qed.





End ShellFacts.


(** On a standard output in ASCII the reply to a severe negative review
    cannot be written, for its apostrophe: the call raises in the last
    print, after the classification block and the head of the reply block
    were written. *)
Example ascii_stdout_stops_the_report :
  fst (generate_feedback_response ascii_lower (fun _ => lit "0.500")
         (lit "Awful soup") None false
         (fresh_process_on ascii_stdout (stub_transformers [])
            (stub_classifier
               [[(lit "negative", S754_finite false 4503599627370496 (-53))]])
            []))
  = Raised
  /\ stdout
       (snd (generate_feedback_response ascii_lower (fun _ => lit "0.500")
               (lit "Awful soup") None false
               (fresh_process_on ascii_stdout (stub_transformers [])
                  (stub_classifier
                     [[(lit "negative",
                        S754_finite false 4503599627370496 (-53))]])
                  [])))
     = NL ++ lit "=== Classification ===" ++ NL
       ++ lit "Sentiment : negative (confidence=0.500)" ++ NL
       ++ NL ++ lit "=== Auto-Reply ===" ++ NL.
Proof. split; reflexivity. Qed.


Ltac run_console :=
  repeat (cbn [fst snd gen_world _sentiment_pipe sentiment_trace stdin stdout
                 stdout_accepts];
          try match goal with
              | |- context [if ?c then _ else _] => destruct c eqn:?
              end).

Section MainFacts.
Context {T : Transformers} {C : Classifier}.
Variable lower : str -> str.
Variable format_3f : spec_float -> str.


(** X21: [main] never runs the generator side, whatever is typed; when the
    input ends before two lines are read it raises without the classifier
    having been asked anything. *)
Theorem main_never_generates (p : Process T C) :
  gen_world (snd (main lower format_3f p)) = gen_world p
  /\ (List.length (stdin p) < 2 ->
      fst (main lower format_3f p) = Raised
      /\ sentiment_trace (snd (main lower format_3f p)) = sentiment_trace p
      /\ _sentiment_pipe (snd (main lower format_3f p)) = _sentiment_pipe p).
Proof.
  destruct p as [w sp st i o acc].
  unfold main, print, input. unfold pbind, write_stdout, read_line.
  split.
  - destruct i as [|name_line [|review_line rest]]; run_console;
      try reflexivity;
      rewrite feedback_response_disabled_gen_world; reflexivity.
  - intros Hlen.
    destruct i as [|name_line [|review_line rest]];
      [| |simpl in Hlen; lia]; run_console; repeat split.
Qed.

End MainFacts.

(** X21 at an empty input. *)
Lemma main_never_generates_witness :
  fst (main ascii_lower (fun _ => lit "0.500")
         (fresh_process (stub_transformers []) (stub_classifier [[]]) []))
  = Raised.
Proof.
  apply (proj2 (main_never_generates ascii_lower (fun _ => lit "0.500")
                  (fresh_process (stub_transformers []) (stub_classifier [[]])
                     []))).
  simpl. lia.
Defined.

